(** * Indinator: the presentation client and the engine contract it consumes

    The repository's TypeScript client ([frontend/src/lib/api.ts], the
    [Index] page, the [GameScreen], [LandingScreen] and [ResultScreen]
    components) is embedded here as Rocq functions.

    - Values are modelled at their declared TypeScript types: interfaces
      are records, [T | null] is [option T], [number] is [Z] for
      identifiers, counters and status codes and [Q] for the probabilities
      and the entropy the client passes on.  The body of a 2xx response
      that parses is read at the type the caller asserts for it; the body
      of any other response is read as whatever JSON value it is, as far
      as the client looks at it.  Strings are byte strings.
    - An [async] function is embedded twice.  In modules [Api] and [Index]
      it is a computation in a small state-and-exception monad over the
      page state and the log of what the page did (requests sent, toasts
      shown, text shared): one handler, run to completion, every reply
      arriving at once.  In module [EventLoop] it is a task that stops at
      each [await] of a reply, so that other clicks and other replies can
      come in between; the two agree when nothing comes in between.
    - The server is an arbitrary function of the requests sent so far;
      [response.text()] is taken to resolve.
    - The engine itself (the Python backend) is not among the source files;
      module [Engine] states the parts of it two properties need, from the
      specification. *)

From Stdlib Require Import String List ZArith QArith Qabs Qminmax.
From Stdlib Require Import Lia Lqa.
From Stdlib Require Import DecimalString.
Import ListNotations.
Local Open Scope string_scope.
Local Open Scope Z_scope.

(** ** JavaScript values and operators the client relies on *)

Module Js.

(** The values a property read of the [mapping] object literal can produce:
    a string (own property), a built-in function or the prototype object
    itself (inherited from [Object.prototype]), or [undefined]. *)
Inductive Value : Type :=
| Undefined
| Str (s : string)
| Function (name : string)
| ObjectPrototype.

(** ToBoolean, as used by [||], [!] and [if]. *)
Definition truthy (v : Value) : bool :=
  match v with
  | Undefined => false
  | Str s => negb (String.eqb s "")
  | Function _ => true
  | ObjectPrototype => true
  end.

(** [a || b] *)
Definition or (a b : Value) : Value := if truthy a then a else b.

(** The properties every ordinary object inherits from [Object.prototype]
    (ECMAScript, with the Annex B accessors every browser ships). *)
Definition Object_prototype : list (string * Value) :=
  [ ("constructor", Function "Object");
    ("__defineGetter__", Function "__defineGetter__");
    ("__defineSetter__", Function "__defineSetter__");
    ("hasOwnProperty", Function "hasOwnProperty");
    ("__lookupGetter__", Function "__lookupGetter__");
    ("__lookupSetter__", Function "__lookupSetter__");
    ("isPrototypeOf", Function "isPrototypeOf");
    ("propertyIsEnumerable", Function "propertyIsEnumerable");
    ("toString", Function "toString");
    ("valueOf", Function "valueOf");
    ("__proto__", ObjectPrototype);
    ("toLocaleString", Function "toLocaleString") ].

Fixpoint lookup {A : Type} (key : string) (props : list (string * A)) : option A :=
  match props with
  | [] => None
  | (k, v) :: rest => if String.eqb k key then Some v else lookup key rest
  end.

(** [obj[key]] for an object literal whose own properties are the strings
    [own]: the own property when there is one, else the inherited one, else
    [undefined]. *)
Definition get (own : list (string * string)) (key : string) : Value :=
  match lookup key own with
  | Some s => Str s
  | None =>
      match lookup key Object_prototype with
      | Some v => v
      | None => Undefined
      end
  end.

(** [haystack.includes(needle)] *)
Fixpoint includes (needle haystack : string) : bool :=
  if String.prefix needle haystack then true
  else match haystack with
       | EmptyString => false
       | String _ rest => includes needle rest
       end.

(** [`${n}`] for an integer [n]. *)
Definition number_to_string (n : Z) : string :=
  NilZero.string_of_int (Z.to_int n).

(** JSON trees, as [JSON.stringify] writes them. *)
#[warnings="-register-all"]
Inductive Json : Type :=
| JNull
| JBool (b : bool)
| JNumber (n : Z)
| JString (s : string)
| JObject (fields : list (string * Json)).

(** What [JSON.stringify] makes of a property value: [undefined] and
    functions are left out of the enclosing object, [Object.prototype] has
    no enumerable own property and is written as the empty object. *)
Definition to_json (v : Value) : option Json :=
  match v with
  | Undefined => None
  | Str s => Some (JString s)
  | Function _ => None
  | ObjectPrototype => Some (JObject [])
  end.

(** One [key: value] entry of an object literal under [JSON.stringify]. *)
Definition property (key : string) (v : option Json) : list (string * Json) :=
  match v with
  | Some j => [(key, j)]
  | None => []
  end.

End Js.

(** ** The browser and React pieces the client runs on *)

Module Runtime.

(** Thrown values: [new Error(message)] and the [TypeError] a failed [fetch]
    rejects with.  Both are instances of [Error]. *)
Inductive Exn : Type :=
| Error (message : string)
| TypeError (message : string).

Definition message (e : Exn) : string :=
  match e with
  | Error m => m
  | TypeError m => m
  end.

(** [e instanceof TypeError] *)
Definition instanceof_TypeError (e : Exn) : bool :=
  match e with
  | Error _ => false
  | TypeError _ => true
  end.

(** The arguments of one [fetch] call; [body] is the tree handed to
    [JSON.stringify], [None] when the call passes no body. *)
Record Request : Type := {
  url : string;
  method : string;
  headers : list (string * string);
  body : option Js.Json
}.

(** The argument of one [toast] call. *)
Record Toast : Type := {
  title : string;
  description : string;
  variant : string
}.

(** What the page did, in the order it did it. *)
Inductive Event : Type :=
| Sent (r : Request)
| Toasted (t : Toast)
| Shared (text : string).

Fixpoint requests (log : list Event) : list Request :=
  match log with
  | [] => []
  | Sent r :: rest => r :: requests rest
  | _ :: rest => requests rest
  end.

Fixpoint toasts (log : list Event) : list Toast :=
  match log with
  | [] => []
  | Toasted t :: rest => t :: toasts rest
  | _ :: rest => toasts rest
  end.

(** The component state [page] (what the [useState] setters have written)
    and the log. *)
Record World (S : Type) : Type := { page : S; log : list Event }.
Arguments page {S} _.
Arguments log {S} _.

Inductive Outcome (A : Type) : Type :=
| Return (a : A)
| Throw (e : Exn).
Arguments Return {A} a.
Arguments Throw {A} e.

(** An [async] computation: it runs from a world to a returned value or a
    thrown one, and the world it leaves. *)
Definition M (S A : Type) : Type := World S -> Outcome A * World S.

Definition ret {S A : Type} (a : A) : M S A := fun w => (Return a, w).

Definition bind {S A B : Type} (m : M S A) (k : A -> M S B) : M S B :=
  fun w =>
    match m w with
    | (Return a, w') => k a w'
    | (Throw e, w') => (Throw e, w')
    end.

Definition throw {S A : Type} (e : Exn) : M S A := fun w => (Throw e, w).

(** [try { body } catch (e) { handler e }] *)
Definition try_catch {S A : Type} (body : M S A) (handler : Exn -> M S A) : M S A :=
  fun w =>
    match body w with
    | (Return a, w') => (Return a, w')
    | (Throw e, w') => handler e w'
    end.

(** [try { body } finally { cleanup }] *)
Definition try_finally {S A : Type} (body : M S A) (cleanup : M S unit) : M S A :=
  fun w =>
    match body w with
    | (r, w') =>
        match cleanup w' with
        | (Return _, w'') => (r, w'')
        | (Throw e, w'') => (Throw e, w'')
        end
    end.

(** A [useState] setter. *)
Definition set {S : Type} (f : S -> S) : M S unit :=
  fun w => (Return tt, {| page := f (page w); log := log w |}).

Definition emit {S : Type} (e : Event) : M S unit :=
  fun w => (Return tt, {| page := page w; log := log w ++ [e] |}).

(** [toast({...})] *)
Definition toast {S : Type} (t : Toast) : M S unit := emit (Toasted t).

Declare Scope async_scope.
Delimit Scope async_scope with async.
Notation "x <- m ;; k" := (bind m (fun x => k))
  (at level 61, m at next level, right associativity) : async_scope.
Notation "m ;; k" := (bind m (fun _ => k))
  (at level 61, right associativity) : async_scope.

End Runtime.

(** ** frontend/src/lib/api.ts *)

Module Api.

Import Runtime.

Record Question : Type := { id : Z; text : string }.

Record Candidate : Type := { name : string; probability : Q }.

Record GameState : Type := {
  question : option Question;
  questionIndex : option Z;
  questionNumber : Z;
  entropy : Q;
  topCandidates : list Candidate;
  guess : option Candidate
}.

Record ApiError : Type := { error : string }.

Record Feedback : Type := { ok : bool; message : string }.

Definition API_BASE : string := "/api".

(** The own properties of the [mapping] literal in [mapAnswerToBackend]. *)
Definition mapping : list (string * string) :=
  [ ("yes", "yes");
    ("probably-yes", "probably_yes");
    ("maybe", "unknown");
    ("probably-no", "probably_no");
    ("no", "no") ].

(** [mapping[answer] || "unknown"] *)
Definition mapAnswerToBackend (answer : string) : Js.Value :=
  Js.or (Js.get mapping answer) (Js.Str "unknown").

(** [a || b] on strings: the empty string is the only falsy one. *)
Definition or_else (a b : string) : string :=
  if String.eqb a "" then b else a.

(** The body of a response: what [response.text()] resolves to, and what
    [JSON.parse(text) as T] evaluates to ([None] when it throws).  For a 2xx
    response [T] is the interface the API function asserts ([GameState],
    or the acknowledgement of a feedback), which the client never checks:
    a 2xx body of another shape is outside the model.  For any other
    response [T] is [ErrorJson] below, which covers every JSON value. *)
Record Body (T : Type) : Type := { body_text : string; JSON_parse : option T }.
Arguments body_text {T} _.
Arguments JSON_parse {T} _.

(** What [JSON.parse] yields for the body of a response that is not ok, as
    far as the client reads it (it evaluates [error.error || fallback] and
    hands the result to [new Error]): the declared shape [{error: string}];
    [null], on which reading [.error] throws; a value whose [error] property
    is truthy but not a string, with the string [new Error] makes of it;
    any other value (no [error] property, or one that is null, false
    or 0). *)
Inductive ErrorJson : Type :=
| Declared (e : ApiError)
| JsonNull
| OtherError (shown : string)
| NoError.

(** A response as the client reads it: [Ok] when [response.ok] (a 2xx
    status), its body read at the type [T] the caller expects; [NotOk]
    otherwise, its body read for its [error] property. *)
Inductive Response (T : Type) : Type :=
| Ok (status : Z) (statusText : string) (body : Body T)
| NotOk (status : Z) (statusText : string) (body : Body ErrorJson).
Arguments Ok {T} _ _ _.
Arguments NotOk {T} _ _ _.

(** [response.ok] *)
Definition response_ok {T : Type} (r : Response T) : bool :=
  match r with
  | Ok _ _ _ => true
  | NotOk _ _ _ => false
  end.

(** How a [fetch] call ends: the promise rejects with a [TypeError] (no
    connection), or resolves to a response. *)
Inductive FetchResult (T : Type) : Type :=
| Rejected (message : string)
| Resolved (r : Response T).
Arguments Rejected {T} _.
Arguments Resolved {T} _.

(** The backend, seen from the client: what each request gets, given all
    the requests sent so far (the last one is the request being answered).
    [game] serves /start, /answer and /next-question, [feedback] serves
    /guess-feedback. *)
Record Server : Type := {
  game : list Request -> FetchResult GameState;
  feedback : list Request -> FetchResult Feedback
}.

(** [`Server error (${response.status}): ${response.statusText}`] *)
Definition serverError (status : Z) (statusText : string) : string :=
  "Server error (" ++ Js.number_to_string status ++ "): " ++ statusText.

(** [`Empty response from server (status: ${response.status}). ...`] *)
Definition emptyResponse (status : Z) : string :=
  "Empty response from server (status: " ++ Js.number_to_string status
  ++ "). Is the backend server running?".

(** [`Invalid JSON response: ${text.substring(0, 100)}`] *)
Definition invalidJson (text : string) : string :=
  "Invalid JSON response: " ++ String.substring 0 100 text.

Section Calls.

Context {S : Type}.
Variable server : Server.

Local Open Scope async_scope.

Definition fetch {T : Type} (serve : list Request -> FetchResult T)
    (req : Request) : M S (Response T) :=
  fun w =>
    let w' := {| page := page w; log := log w ++ [Sent req] |} in
    match serve (requests (log w')) with
    | Rejected m => (Throw (TypeError m), w')
    | Resolved r => (Return r, w')
    end.

Definition parseJsonResponse {T : Type} (status : Z) (b : Body T) : M S T :=
  if String.eqb (body_text b) "" then throw (Error (emptyResponse status))
  else
    match JSON_parse b with
    | Some v => ret v
    | None => throw (Error (invalidJson (body_text b)))
    end.

(** [error.error || fallback], the argument of [new Error], as the message
    the error gets.  On [null] the property read throws (the message is the
    one V8 gives). *)
Definition errorOr (parsed : ErrorJson) (fallback : string) : M S string :=
  match parsed with
  | Declared e => ret (or_else (error e) fallback)
  | JsonNull =>
      throw (TypeError "Cannot read properties of null (reading 'error')")
  | OtherError shown => ret shown
  | NoError => ret fallback
  end.

(** The [if (!response.ok) { ... throw ... }] block each API function runs
    on its response: it throws for a response that is not ok, and hands
    on the status and the body of one that is, for the final
    [parseJsonResponse]. *)
Definition check_ok {T : Type} (fallback : string) (r : Response T)
    : M S (Z * Body T) :=
  match r with
  | Ok status _ b => ret (status, b)
  | NotOk status statusText b =>
      error <- try_catch (parseJsonResponse status b)
                 (fun _ =>
                    ret (Declared {| error := serverError status statusText |})) ;;
      message <- errorOr error fallback ;;
      throw (Error message)
  end.

Definition post (path : string) (body : option Js.Json) : Request :=
  {| url := API_BASE ++ path;
     method := "POST";
     headers := [("Content-Type", "application/json")];
     body := body |}.

(** The [return parseJsonResponse(response)] of [startGame] is not awaited
    inside the [try], so only the [fetch] and the status check are under the
    [catch]. *)
Definition startGame : M S GameState :=
  ok <- try_catch
          (response <- fetch (game server) (post "/start" None) ;;
           check_ok "Failed to start game" response)
          (fun error =>
             if instanceof_TypeError error
                && Js.includes "fetch" (Runtime.message error)
             then throw (Error "Cannot connect to backend server. Make sure it's running on http://localhost:5000")
             else throw error) ;;
  parseJsonResponse (fst ok) (snd ok).

Definition submitAnswer (questionId : Z) (answer : string) : M S GameState :=
  let backendAnswer := mapAnswerToBackend answer in
  response <- fetch (game server)
                (post "/answer"
                   (Some (Js.JObject
                            (Js.property "questionId" (Some (Js.JNumber questionId))
                             ++ Js.property "answer" (Js.to_json backendAnswer))))) ;;
  ok <- check_ok "Failed to submit answer" response ;;
  parseJsonResponse (fst ok) (snd ok).

Definition getNextQuestion : M S GameState :=
  response <- fetch (game server) (post "/next-question" None) ;;
  ok <- check_ok "Failed to get next question" response ;;
  parseJsonResponse (fst ok) (snd ok).

Definition submitGuessFeedback (correct : bool) : M S Feedback :=
  response <- fetch (feedback server)
                (post "/guess-feedback"
                   (Some (Js.JObject
                            (Js.property "correct" (Some (Js.JBool correct)))))) ;;
  ok <- check_ok "Failed to submit feedback" response ;;
  parseJsonResponse (fst ok) (snd ok).

End Calls.

(** The request [startGame] sends. *)
Definition startRequest : Request := post "/start" None.

(** The request [submitAnswer] sends. *)
Definition answerRequest (questionId : Z) (answer : string) : Request :=
  post "/answer"
    (Some (Js.JObject
             (Js.property "questionId" (Some (Js.JNumber questionId))
              ++ Js.property "answer"
                   (Js.to_json (mapAnswerToBackend answer))))).

(** The request [submitGuessFeedback] sends. *)
Definition feedbackRequest (correct : bool) : Request :=
  post "/guess-feedback" (Some (Js.JObject [("correct", Js.JBool correct)])).

(** The request [getNextQuestion] sends. *)
Definition nextQuestionRequest : Request := post "/next-question" None.

(** What a caller of an API function can rely on, for the function [call]
    that sends [req] to [serve] and falls back to the message [fallback]:
    - when [fetch] rejects, the call throws;
    - on a response that is not ok the call always throws.  When the body
      is the declared [{error: string}] it throws an [Error] with the error
      field when the field is not empty and with [fallback] when it is
      empty; when the body is empty or not JSON, an [Error] with the
      "Server error" message; when the body is [null], a [TypeError]; when
      its error property is another truthy value, an [Error] with the
      string of that value; otherwise an [Error] with [fallback];
    - on an ok response the call throws when the body is empty or not JSON,
      and only otherwise returns the parsed body. *)
Definition reports_failures {S T : Type} (call : M S T)
    (serve : list Request -> FetchResult T) (req : Request)
    (fallback : string) : Prop :=
  forall w : World S,
    match serve (requests (log w ++ [Sent req])) with
    | Rejected _ => exists e, fst (call w) = Throw e
    | Resolved (NotOk status statusText b) =>
        (exists e, fst (call w) = Throw e)
        /\ (forall e,
              body_text b <> "" -> JSON_parse b = Some (Declared e) ->
              error e <> "" ->
              fst (call w) = Throw (Error (error e)))
        /\ (forall e,
              body_text b <> "" -> JSON_parse b = Some (Declared e) ->
              error e = "" ->
              fst (call w) = Throw (Error fallback))
        /\ (body_text b = "" \/ JSON_parse b = None ->
            fst (call w) = Throw (Error (serverError status statusText)))
        /\ (body_text b <> "" -> JSON_parse b = Some JsonNull ->
            exists message, fst (call w) = Throw (TypeError message))
        /\ (forall shown,
              body_text b <> "" -> JSON_parse b = Some (OtherError shown) ->
              fst (call w) = Throw (Error shown))
        /\ (body_text b <> "" -> JSON_parse b = Some NoError ->
            fst (call w) = Throw (Error fallback))
    | Resolved (Ok status statusText b) =>
        (body_text b = "" ->
         fst (call w) = Throw (Error (emptyResponse status)))
        /\ (body_text b <> "" -> JSON_parse b = None ->
            fst (call w) = Throw (Error (invalidJson (body_text b))))
        /\ (forall v,
              body_text b <> "" -> JSON_parse b = Some v ->
              fst (call w) = Return v)
    end.

End Api.

(** ** The GameScreen component *)

Module GameScreen.

Import Api.

(** The callbacks a button of the component can invoke; the page binds them
    to its handlers. *)
Inductive Callback : Type :=
| onQuit
| onAnswer (value : string)
| onGuessFeedback (correct : bool).

Record Button : Type := {
  label : string;
  onClick : Callback;
  disabled : bool
}.

Record GameScreenProps : Type := {
  question : option string;
  questionNumber : Z;
  entropy : Q;
  guess : option Candidate;
  isLoading : bool
}.

(** The [value] and [label] of the five answer buttons. *)
Definition answers : list (string * string) :=
  [ ("yes", "Yes");
    ("probably-yes", "Probably");
    ("maybe", "Maybe");
    ("probably-no", "Probably Not");
    ("no", "No") ].

(** What the component returns: the guess screen, the loading placeholder or
    the question screen, each with the buttons it renders. *)
Inductive View : Type :=
| GuessView (heading : string) (buttons : list Button)
| LoadingView
| QuestionView (questionNumber : Z) (heading : string) (buttons : list Button).

Definition quitButton : Button :=
  {| label := "X"; onClick := onQuit; disabled := false |}.

Definition GameScreen (props : GameScreenProps) : View :=
  match guess props with
  | Some g =>
      GuessView ("Is it " ++ name g ++ "?")
        [ quitButton;
          {| label := "Yes, that's it";
             onClick := onGuessFeedback true;
             disabled := isLoading props |};
          {| label := "No, keep going";
             onClick := onGuessFeedback false;
             disabled := isLoading props |} ]
  | None =>
      match question props with
      | None => LoadingView
      | Some q =>
          if String.eqb q "" then LoadingView
          else
            QuestionView (questionNumber props) q
              (quitButton ::
               map (fun answer =>
                      {| label := snd answer;
                         onClick := onAnswer (fst answer);
                         disabled := isLoading props |})
                   answers)
      end
  end.

Definition buttons (v : View) : list Button :=
  match v with
  | GuessView _ bs => bs
  | LoadingView => []
  | QuestionView _ _ bs => bs
  end.

Definition is_guess_view (v : View) : bool :=
  match v with
  | GuessView _ _ => true
  | _ => false
  end.

Definition is_question_view (v : View) : bool :=
  match v with
  | QuestionView _ _ _ => true
  | _ => false
  end.

Definition is_answer (c : Callback) : bool :=
  match c with
  | onAnswer _ => true
  | _ => false
  end.

End GameScreen.

(** ** The Index page *)

Module Index.

Import Runtime Api.
Local Open Scope async_scope.

Inductive GameStateType : Type := landing | playing | result.

Record Character : Type := { name : string; quote : option string }.

(** The five [useState] cells of the page. *)
Record State : Type := {
  gameState : GameStateType;
  currentState : option GameState;
  guessedCharacter : option Character;
  showAbout : bool;
  isLoading : bool
}.

Definition initial : State :=
  {| gameState := landing;
     currentState := None;
     guessedCharacter := None;
     showAbout := false;
     isLoading := false |}.

Definition setGameState (v : GameStateType) : M State unit :=
  set (fun s => {| gameState := v;
                   currentState := currentState s;
                   guessedCharacter := guessedCharacter s;
                   showAbout := showAbout s;
                   isLoading := isLoading s |}).

Definition setCurrentState (v : option GameState) : M State unit :=
  set (fun s => {| gameState := gameState s;
                   currentState := v;
                   guessedCharacter := guessedCharacter s;
                   showAbout := showAbout s;
                   isLoading := isLoading s |}).

Definition setGuessedCharacter (v : option Character) : M State unit :=
  set (fun s => {| gameState := gameState s;
                   currentState := currentState s;
                   guessedCharacter := v;
                   showAbout := showAbout s;
                   isLoading := isLoading s |}).

Definition setShowAbout (v : bool) : M State unit :=
  set (fun s => {| gameState := gameState s;
                   currentState := currentState s;
                   guessedCharacter := guessedCharacter s;
                   showAbout := v;
                   isLoading := isLoading s |}).

Definition setIsLoading (v : bool) : M State unit :=
  set (fun s => {| gameState := gameState s;
                   currentState := currentState s;
                   guessedCharacter := guessedCharacter s;
                   showAbout := showAbout s;
                   isLoading := v |}).

(** The toast every handler shows from its [catch]; a thrown value is always
    an [Error] instance here, so the description is its message. *)
Definition errorToast (error : Exn) : Toast :=
  {| title := "Error";
     description := Runtime.message error;
     variant := "destructive" |}.

(** [currentState?.question] and [currentState?.guess] *)
Definition pendingQuestion (st : State) : option Question :=
  match currentState st with
  | Some s => question s
  | None => None
  end.

Definition pendingGuess (st : State) : option Candidate :=
  match currentState st with
  | Some s => guess s
  | None => None
  end.

Section Handlers.

Variable server : Server.

(** Each handler is a closure over the state [st] of the render it was
    created in; what it writes goes through the setters. *)

Definition handleStartGame (st : State) : M State unit :=
  try_finally
    (try_catch
       (setIsLoading true ;;
        state <- startGame server ;;
        setCurrentState (Some state) ;;
        setGameState playing ;;
        setGuessedCharacter None)
       (fun error => toast (errorToast error)))
    (setIsLoading false).

Definition handleQuitGame (st : State) : M State unit :=
  setGameState landing ;;
  setCurrentState None ;;
  setGuessedCharacter None.

Definition handleAnswer (st : State) (answer : string) : M State unit :=
  match pendingQuestion st with
  | None => ret tt
  | Some q =>
      if isLoading st then ret tt
      else
        try_finally
          (try_catch
             (setIsLoading true ;;
              newState <- submitAnswer server (id q) answer ;;
              setCurrentState (Some newState))
             (fun error => toast (errorToast error)))
          (setIsLoading false)
  end.

Definition handleGuessFeedback (st : State) (correct : bool) : M State unit :=
  match pendingGuess st with
  | None => ret tt
  | Some g =>
      if isLoading st then ret tt
      else
        try_finally
          (try_catch
             (setIsLoading true ;;
              if correct then
                setGuessedCharacter
                  (Some {| name := Api.name g; quote := None |}) ;;
                setGameState result
              else
                submitGuessFeedback server false ;;
                newState <- getNextQuestion server ;;
                setCurrentState (Some newState))
             (fun error => toast (errorToast error)))
          (setIsLoading false)
  end.

(** What the page renders besides the About modal: at most one of the three
    screens. *)
Inductive Screen : Type :=
| Landing
| Game (view : GameScreen.View)
| Result (characterName characterQuote : string).

Definition gameScreenProps (st : State) (s : GameState) : GameScreen.GameScreenProps :=
  {| GameScreen.question :=
       match question s with
       | Some q => if String.eqb (text q) "" then None else Some (text q)
       | None => None
       end;
     GameScreen.questionNumber := questionNumber s;
     GameScreen.entropy := entropy s;
     GameScreen.guess := guess s;
     GameScreen.isLoading := isLoading st |}.

Definition render (st : State) : option Screen :=
  match gameState st with
  | landing => Some Landing
  | playing =>
      match currentState st with
      | Some s => Some (Game (GameScreen.GameScreen (gameScreenProps st s)))
      | None => None
      end
  | result =>
      match guessedCharacter st with
      | Some c =>
          Some (Result (name c)
                  (match quote c with
                   | Some q => or_else q ("I knew it was " ++ name c ++ "!")
                   | None => "I knew it was " ++ name c ++ "!"
                   end))
      | None => None
      end
  end.

(** The handler the page passes for each callback of GameScreen. *)
Definition callback (st : State) (c : GameScreen.Callback) : M State unit :=
  match c with
  | GameScreen.onQuit => handleQuitGame st
  | GameScreen.onAnswer value => handleAnswer st value
  | GameScreen.onGuessFeedback correct => handleGuessFeedback st correct
  end.

(** Everything that can be clicked: the Start and About buttons of
    LandingScreen, the Play Again and Share buttons of ResultScreen, the
    buttons of GameScreen, and the About modal, which the page renders
    beside every screen and which reports being opened or closed through
    [onOpenChange]. *)
Inductive Control : Type :=
| StartButton
| AboutButton
| PlayAgainButton
| ShareButton (characterName : string)
| GameButton (b : GameScreen.Button)
| AboutModal (open : bool).

Definition controls (screen : Screen) : list Control :=
  match screen with
  | Landing => [AboutButton; StartButton]
  | Game view => map GameButton (GameScreen.buttons view)
  | Result characterName _ => [PlayAgainButton; ShareButton characterName]
  end.

(** What a click on a control runs.  A disabled button runs nothing;
    ResultScreen's [handleShare] hands its text to the browser; the About
    modal is given [setShowAbout] as its [onOpenChange]. *)
Definition click (st : State) (c : Control) : M State unit :=
  match c with
  | StartButton => handleStartGame st
  | AboutButton => setShowAbout true
  | PlayAgainButton => handleStartGame st
  | ShareButton characterName =>
      emit (Shared ("Ind-inator guessed I was thinking of "
                      ++ characterName ++ "! 🎯"))
  | GameButton b =>
      if GameScreen.disabled b then ret tt
      else callback st (GameScreen.onClick b)
  | AboutModal open => setShowAbout open
  end.

End Handlers.

(** One handler run to completion from the rendered state [st], after the
    events of [history]: the state the page is left in and the full log. *)
Definition run (history : list Event) (st : State) (handler : M State unit)
    : World State :=
  snd (handler {| page := st; log := history |}).

(** The requests a run added to the log. *)
Definition issued (history : list Event) (w : World State) : list Request :=
  requests (skipn (length history) (log w)).

(** The toasts a run added to the log. *)
Definition shown (history : list Event) (w : World State) : list Toast :=
  toasts (skipn (length history) (log w)).

(** The part of the state that selects and fills the screen. *)
Definition displayed (st : State)
    : GameStateType * option GameState * option Character :=
  (gameState st, currentState st, guessedCharacter st).

(** The world an API call of a handler starts in: [setIsLoading(true)] has
    run, nothing else has. *)
Definition started (history : list Event) (st : State) : World State :=
  {| page := {| gameState := gameState st;
                currentState := currentState st;
                guessedCharacter := guessedCharacter st;
                showAbout := showAbout st;
                isLoading := true |};
     log := history |}.

Definition isGuessScreen (screen : option Screen) : bool :=
  match screen with
  | Some (Game view) => GameScreen.is_guess_view view
  | _ => false
  end.

Definition isQuestionScreen (screen : option Screen) : bool :=
  match screen with
  | Some (Game view) => GameScreen.is_question_view view
  | _ => false
  end.

Definition isAnswerRequest (r : Request) : bool :=
  String.eqb (url r) "/api/answer".

End Index.

(** ** The typed contract of the responses *)

Module Contract.

(** TypeScript types, as far as the interfaces of api.ts use them. *)
#[warnings="-register-all"]
Inductive TsType : Type :=
| TNumber
| TString
| TBoolean
| TNull
| TUnion (a b : TsType)
| TArray (element : TsType)
| TObject (fields : list (string * TsType)).

Definition nullable (t : TsType) : TsType := TUnion t TNull.

(** [interface GameState] of api.ts, field by field. *)
Definition GameState : list (string * TsType) :=
  [ ("question", nullable (TObject [("id", TNumber); ("text", TString)]));
    ("questionIndex", nullable TNumber);
    ("questionNumber", TNumber);
    ("entropy", TNumber);
    ("topCandidates",
       TArray (TObject [("name", TString); ("probability", TNumber)]));
    ("guess", nullable (TObject [("name", TString); ("probability", TNumber)])) ].

(** The response body of POST /start as the specification's interface table
    lists it. *)
Definition documented_response : list (string * TsType) :=
  [ ("question", nullable (TObject [("id", TNumber); ("text", TString)]));
    ("questionNumber", TNumber);
    ("entropy", TNumber);
    ("topCandidates",
       TArray (TObject [("name", TString); ("probability", TNumber)]));
    ("guess", nullable (TObject [("name", TString); ("probability", TNumber)])) ].

Definition field_names (fields : list (string * TsType)) : list string :=
  map fst fields.

End Contract.

(** ** The engine behind the interface *)

Module Engine.

Local Open Scope Q_scope.

(** Modelled from the spec: the graded answers of the Answer Likelihood Model
    (section 4.1); the engine is backend code that is not among the source
    files. *)
Inductive Answer : Type := yes | probably_yes | unknown | probably_no | no.

(** Modelled from the spec: the target agreement value of a graded answer
    (section 4.1). *)
Definition agreement (a : Answer) : Q :=
  match a with
  | yes => 1
  | probably_yes => 3 # 4
  | unknown => 1 # 2
  | probably_no => 1 # 4
  | no => 0
  end.

(** Modelled from the spec: the small positive floor of the likelihood
    (section 4.1, "e.g. 0.01"). *)
Definition likelihood_floor : Q := 1 # 100.

(** Modelled from the spec: [L = 1 - |t - p|], clamped to the floor
    (section 4.1). *)
Definition likelihood (a : Answer) (p : Q) : Q :=
  Qmax likelihood_floor (1 - Qabs (agreement a - p)).

(** Modelled from the spec: a character of the Knowledge Base, with a Beta
    parameter pair per trait (section 3). *)
Record Character : Type := {
  character_id : Z;
  display_name : string;
  display_quote : string;
  beliefs : list (string * (Q * Q))
}.

(** Modelled from the spec: a question, bound to one trait (section 3). *)
Record Question : Type := {
  question_id : Z;
  question_text : string;
  trait : string
}.

(** Modelled from the spec: the belief of a character for a trait; a trait
    without an explicit belief has the uninformative (1,1) prior
    (section 3). *)
Definition belief (c : Character) (t : string) : Q * Q :=
  match Js.lookup t (beliefs c) with
  | Some ab => ab
  | None => (1, 1)
  end.

(** Modelled from the spec: the belief mean alpha / (alpha + beta)
    (section 3). *)
Definition belief_mean (c : Character) (t : string) : Q :=
  fst (belief c t) / (fst (belief c t) + snd (belief c t)).

Fixpoint find_character (kb : list Character) (cid : Z) : option Character :=
  match kb with
  | [] => None
  | c :: rest =>
      if Z.eqb (character_id c) cid then Some c else find_character rest cid
  end.

(** Modelled from the spec: the trait mean of the character with id [cid];
    under the closed-world default a character the Knowledge Base has no
    belief for has the (1,1) prior, mean 1/2. *)
Definition trait_mean (kb : list Character) (cid : Z) (t : string) : Q :=
  match find_character kb cid with
  | Some c => belief_mean c t
  | None => 1 # 2
  end.

(** Modelled from the spec: the posterior vector, indexed by character id
    (section 3). *)
Definition Posterior : Type := list (Z * Q).

Definition total (pi : Posterior) : Q :=
  fold_right (fun entry acc => snd entry + acc) 0 pi.

(** Modelled from the spec: division of every entry by the sum over all
    characters (section 4.2). *)
Definition normalize (pi : Posterior) : Posterior :=
  map (fun entry => (fst entry, snd entry / total pi)) pi.

(** Modelled from the spec: the unnormalized weights [pi_i * L_i]
    (section 4.2). *)
Definition weigh (kb : list Character) (q : Question) (a : Answer)
    (pi : Posterior) : Posterior :=
  map (fun entry =>
         (fst entry,
          snd entry * likelihood a (trait_mean kb (fst entry) (trait q))))
      pi.

(** Modelled from the spec: the recovery of section 4.2, a uniform-with-floor
    re-mix of the previous posterior: every entry is raised to the floor at
    least and the vector is normalized again. *)
Definition remix (previous : Posterior) : Posterior :=
  normalize (map (fun entry => (fst entry, Qmax likelihood_floor (snd entry)))
               previous).

(** Modelled from the spec: the Posterior Updater (section 4.2): weigh,
    normalize, and fall back to the re-mix when the weights sum to zero. *)
Definition update (kb : list Character) (q : Question) (a : Answer)
    (pi : Posterior) : Posterior :=
  let weights := weigh kb q a pi in
  if Qeq_bool (total weights) 0 then remix pi else normalize weights.

Definition nonnegative (pi : Posterior) : Prop :=
  Forall (fun entry => 0 <= snd entry) pi.

(** Modelled from the spec: the states of the Guess Policy (section 4.4):
    [asking] (initial), [proposing] a character, [confirmed] (terminal)
    and [rejected_continuing]. *)
Inductive Policy : Type :=
| asking
| proposing (candidate : Character)
| confirmed (candidate : Character)
| rejected_continuing (candidate : Character).

(** The posterior probability of the character with id [cid]. *)
Fixpoint mass (pi : Posterior) (cid : Z) : Q :=
  match pi with
  | [] => 0
  | entry :: rest => if Z.eqb (fst entry) cid then snd entry else mass rest cid
  end.

(** Modelled from the spec: the [guess] field of the response the engine
    builds in a state of the Guess Policy (section 6): the proposed
    character with its posterior probability in [proposing], null in
    every other state. *)
Definition guess_field (pi : Posterior) (s : Policy) : option Api.Candidate :=
  match s with
  | proposing c =>
      Some {| Api.name := display_name c;
              Api.probability := mass pi (character_id c) |}
  | _ => None
  end.

End Engine.

(** ** Sample data for the scenarios below *)

Module Scenario.

Import Runtime Api Index.

Definition holmes : Candidate :=
  {| Api.name := "Sherlock Holmes"; probability := 9 # 10 |}.

(** A response in which the engine proposes a guess. *)
Definition proposing : GameState :=
  {| question := None;
     questionIndex := None;
     questionNumber := 7;
     entropy := 1 # 2;
     topCandidates := [holmes];
     guess := Some holmes |}.

(** A response in which the engine asks a question. *)
Definition asking : GameState :=
  {| question := Some {| id := 7; text := "Can they fly?" |};
     questionIndex := Some 3;
     questionNumber := 1;
     entropy := 3;
     topCandidates := [holmes];
     guess := None |}.

Definition page_with (s : GameState) : State :=
  {| gameState := playing;
     currentState := Some s;
     guessedCharacter := None;
     showAbout := false;
     isLoading := false |}.

Definition json_body {T : Type} (text : string) (v : T) : Body T :=
  {| body_text := text; JSON_parse := Some v |}.

(** A backend that answers every request with status 200. *)
Definition healthy : Server :=
  {| game := fun _ => Resolved (Ok 200 "OK" (json_body "{...}" asking));
     feedback := fun _ =>
       Resolved (Ok 200 "OK"
                   (json_body "{...}" {| ok := true; message := "recorded" |})) |}.

(** A backend that answers every request with status 500 and the error
    body [{"error": e}]. *)
Definition failing (e : string) : Server :=
  {| game := fun _ =>
       Resolved (NotOk 500 "Internal Server Error"
                   (json_body "{...}" (Declared {| error := e |})));
     feedback := fun _ =>
       Resolved (NotOk 500 "Internal Server Error"
                   (json_body "{...}" (Declared {| error := e |}))) |}.

(** A backend that answers every request with status 500 and the body
    [null]. *)
Definition failing_null : Server :=
  {| game := fun _ =>
       Resolved (NotOk 500 "Internal Server Error" (json_body "null" JsonNull));
     feedback := fun _ =>
       Resolved (NotOk 500 "Internal Server Error" (json_body "null" JsonNull)) |}.

(** The two-character Knowledge Base of the specification's scenario:
    A flies (mean 0.95), B does not (mean 0.05). *)
Definition flyers : list Engine.Character :=
  [ {| Engine.character_id := 1;
       Engine.display_name := "A";
       Engine.display_quote := "";
       Engine.beliefs := [("flies", (19 # 1, 1 # 1))] |};
    {| Engine.character_id := 2;
       Engine.display_name := "B";
       Engine.display_quote := "";
       Engine.beliefs := [("flies", (1 # 1, 19 # 1))] |} ].

Definition canTheyFly : Engine.Question :=
  {| Engine.question_id := 1;
     Engine.question_text := "Can they fly?";
     Engine.trait := "flies" |}.

Definition uniform : Engine.Posterior := [(1, 1 # 2); (2, 1 # 2)].

End Scenario.

(** ** The page under the browser's event loop *)

Module EventLoop.

Import Runtime Api Index.

(** An [async] function as the event loop runs it, step by step: it writes
    the page state through a setter, adds an event to the log, or sends a
    request and stops at the [await] of its reply; [resume] is the rest of
    the function, run when the reply has arrived.  Between the sending and
    the arrival the event loop runs whatever else comes: other clicks, other
    replies.  A reply counts as arrived when its body has been read. *)
Inductive Task (A : Type) : Type :=
| Done (result : Outcome A)
| Write (f : State -> State) (next : Task A)
| Emit (e : Event) (next : Task A)
| AwaitGame (req : Request) (resume : FetchResult GameState -> Task A)
| AwaitFeedback (req : Request) (resume : FetchResult Feedback -> Task A).
Arguments Done {A} _.
Arguments Write {A} _ _.
Arguments Emit {A} _ _.
Arguments AwaitGame {A} _ _.
Arguments AwaitFeedback {A} _ _.

Definition ret {A : Type} (a : A) : Task A := Done (Return a).

Definition throw {A : Type} (e : Exn) : Task A := Done (Throw e).

Fixpoint bind {A B : Type} (t : Task A) (k : A -> Task B) : Task B :=
  match t with
  | Done (Return a) => k a
  | Done (Throw e) => Done (Throw e)
  | Write f next => Write f (bind next k)
  | Emit e next => Emit e (bind next k)
  | AwaitGame req resume => AwaitGame req (fun reply => bind (resume reply) k)
  | AwaitFeedback req resume =>
      AwaitFeedback req (fun reply => bind (resume reply) k)
  end.

(** [try { body } catch (e) { handler e }] *)
Fixpoint try_catch {A : Type} (body : Task A) (handler : Exn -> Task A)
    : Task A :=
  match body with
  | Done (Return a) => Done (Return a)
  | Done (Throw e) => handler e
  | Write f next => Write f (try_catch next handler)
  | Emit e next => Emit e (try_catch next handler)
  | AwaitGame req resume =>
      AwaitGame req (fun reply => try_catch (resume reply) handler)
  | AwaitFeedback req resume =>
      AwaitFeedback req (fun reply => try_catch (resume reply) handler)
  end.

(** [try { body } finally { cleanup }] *)
Fixpoint try_finally {A : Type} (body : Task A) (cleanup : Task unit)
    : Task A :=
  match body with
  | Done r => bind cleanup (fun _ => Done r)
  | Write f next => Write f (try_finally next cleanup)
  | Emit e next => Emit e (try_finally next cleanup)
  | AwaitGame req resume =>
      AwaitGame req (fun reply => try_finally (resume reply) cleanup)
  | AwaitFeedback req resume =>
      AwaitFeedback req (fun reply => try_finally (resume reply) cleanup)
  end.

Declare Scope task_scope.
Delimit Scope task_scope with task.
Notation "x <- m ;; k" := (bind m (fun x => k))
  (at level 61, m at next level, right associativity) : task_scope.
Notation "m ;; k" := (bind m (fun _ => k))
  (at level 61, right associativity) : task_scope.
Local Open Scope task_scope.

(** Code of [api.ts] that neither sends a request nor touches the page (the
    status check of a response and the parsing of its body) runs within
    the task that calls it. *)
Definition pure {A : Type} (m : M unit A) : Task A :=
  Done (fst (m {| page := tt; log := [] |})).

(** A [useState] setter of the page, as the write it makes. *)
Definition setter (m : M State unit) : Task unit :=
  Write (fun s => page (snd (m {| page := s; log := [] |}))) (ret tt).

Definition setGameState (v : GameStateType) : Task unit :=
  setter (Index.setGameState v).

Definition setCurrentState (v : option GameState) : Task unit :=
  setter (Index.setCurrentState v).

Definition setGuessedCharacter (v : option Character) : Task unit :=
  setter (Index.setGuessedCharacter v).

Definition setShowAbout (v : bool) : Task unit :=
  setter (Index.setShowAbout v).

Definition setIsLoading (v : bool) : Task unit :=
  setter (Index.setIsLoading v).

(** [toast({...})] *)
Definition toast (t : Toast) : Task unit := Emit (Toasted t) (ret tt).

(** [await fetch(...)] on one of the three endpoints that answer with a
    game state, and on /guess-feedback. *)
Definition fetchGame (req : Request) : Task (Response GameState) :=
  AwaitGame req
    (fun reply =>
       match reply with
       | Rejected m => throw (TypeError m)
       | Resolved r => ret r
       end).

Definition fetchFeedback (req : Request) : Task (Response Feedback) :=
  AwaitFeedback req
    (fun reply =>
       match reply with
       | Rejected m => throw (TypeError m)
       | Resolved r => ret r
       end).

(** The four API functions. *)
Definition startGame : Task GameState :=
  ok <- try_catch
          (response <- fetchGame (post "/start" None) ;;
           pure (check_ok "Failed to start game" response))
          (fun error =>
             if instanceof_TypeError error
                && Js.includes "fetch" (Runtime.message error)
             then throw (Error "Cannot connect to backend server. Make sure it's running on http://localhost:5000")
             else throw error) ;;
  pure (parseJsonResponse (fst ok) (snd ok)).

Definition submitAnswer (questionId : Z) (answer : string) : Task GameState :=
  let backendAnswer := mapAnswerToBackend answer in
  response <- fetchGame
                (post "/answer"
                   (Some (Js.JObject
                            (Js.property "questionId" (Some (Js.JNumber questionId))
                             ++ Js.property "answer" (Js.to_json backendAnswer))))) ;;
  ok <- pure (check_ok "Failed to submit answer" response) ;;
  pure (parseJsonResponse (fst ok) (snd ok)).

Definition getNextQuestion : Task GameState :=
  response <- fetchGame (post "/next-question" None) ;;
  ok <- pure (check_ok "Failed to get next question" response) ;;
  pure (parseJsonResponse (fst ok) (snd ok)).

Definition submitGuessFeedback (correct : bool) : Task Feedback :=
  response <- fetchFeedback
                (post "/guess-feedback"
                   (Some (Js.JObject
                            (Js.property "correct" (Some (Js.JBool correct)))))) ;;
  ok <- pure (check_ok "Failed to submit feedback" response) ;;
  pure (parseJsonResponse (fst ok) (snd ok)).

(** The handlers of the page; [st] is the state of the render the handler
    was created in. *)
Definition handleStartGame (st : State) : Task unit :=
  try_finally
    (try_catch
       (setIsLoading true ;;
        state <- startGame ;;
        setCurrentState (Some state) ;;
        setGameState playing ;;
        setGuessedCharacter None)
       (fun error => toast (errorToast error)))
    (setIsLoading false).

Definition handleQuitGame (st : State) : Task unit :=
  setGameState landing ;;
  setCurrentState None ;;
  setGuessedCharacter None.

Definition handleAnswer (st : State) (answer : string) : Task unit :=
  match pendingQuestion st with
  | None => ret tt
  | Some q =>
      if isLoading st then ret tt
      else
        try_finally
          (try_catch
             (setIsLoading true ;;
              newState <- submitAnswer (id q) answer ;;
              setCurrentState (Some newState))
             (fun error => toast (errorToast error)))
          (setIsLoading false)
  end.

Definition handleGuessFeedback (st : State) (correct : bool) : Task unit :=
  match pendingGuess st with
  | None => ret tt
  | Some g =>
      if isLoading st then ret tt
      else
        try_finally
          (try_catch
             (setIsLoading true ;;
              if correct then
                setGuessedCharacter
                  (Some {| name := Api.name g; quote := None |}) ;;
                setGameState result
              else
                submitGuessFeedback false ;;
                newState <- getNextQuestion ;;
                setCurrentState (Some newState))
             (fun error => toast (errorToast error)))
          (setIsLoading false)
  end.

Definition callback (st : State) (c : GameScreen.Callback) : Task unit :=
  match c with
  | GameScreen.onQuit => handleQuitGame st
  | GameScreen.onAnswer value => handleAnswer st value
  | GameScreen.onGuessFeedback correct => handleGuessFeedback st correct
  end.

(** What a click on a control starts. *)
Definition click (st : State) (c : Control) : Task unit :=
  match c with
  | StartButton => handleStartGame st
  | AboutButton => setShowAbout true
  | PlayAgainButton => handleStartGame st
  | ShareButton characterName =>
      Emit (Shared ("Ind-inator guessed I was thinking of "
                      ++ characterName ++ "! 🎯"))
        (ret tt)
  | GameButton b =>
      if GameScreen.disabled b then ret tt
      else callback st (GameScreen.onClick b)
  | AboutModal open => setShowAbout open
  end.

(** A request that has been sent and not been answered yet: [arrival] is
    what the function that awaits it does once the reply is there. *)
Record Pending : Type := { request : Request; arrival : Task unit }.

(** The page in the browser: its state and log, and the requests in
    flight. *)
Record Browser : Type := { world : World State; inflight : list Pending }.

(** What the event loop runs next: the handler of a click, or the rest of
    the function that awaits the [n]-th request in flight, whose reply has
    arrived.  Replies arrive in any order. *)
Inductive Action : Type :=
| Click (c : Control)
| Arrive (n : nat).

Section Loop.

Variable server : Server.

(** A task runs until it is done or awaits a reply; then the request is in
    flight.  As in [Api.fetch], the server answers a request from the
    requests sent up to it; no two requests are sent after the same
    requests, so a server can give every request any reply.  The order of
    the arrivals is free. *)
Fixpoint advance (t : Task unit) (b : Browser) : Browser :=
  match t with
  | Done _ => b
  | Write f next =>
      advance next
        {| world := {| page := f (page (world b)); log := log (world b) |};
           inflight := inflight b |}
  | Emit e next =>
      advance next
        {| world := {| page := page (world b);
                      log := (log (world b) ++ [e])%list |};
           inflight := inflight b |}
  | AwaitGame req resume =>
      let sent := (log (world b) ++ [Sent req])%list in
      {| world := {| page := page (world b); log := sent |};
         inflight :=
           (inflight b
            ++ [{| request := req;
                   arrival := resume (game server (requests sent)) |}])%list |}
  | AwaitFeedback req resume =>
      let sent := (log (world b) ++ [Sent req])%list in
      {| world := {| page := page (world b); log := sent |};
         inflight :=
           (inflight b
            ++ [{| request := req;
                   arrival := resume (feedback server (requests sent)) |}])%list |}
  end.

(** One turn of the event loop.  A handler is the one of the current
    render. *)
Definition step (b : Browser) (a : Action) : Browser :=
  match a with
  | Click c => advance (click (page (world b)) c) b
  | Arrive n =>
      match nth_error (inflight b) n with
      | Some p =>
          advance (arrival p)
            {| world := world b;
               inflight :=
                 (firstn n (inflight b) ++ skipn (S n) (inflight b))%list |}
      | None => b
      end
  end.

Definition steps (b : Browser) (actions : list Action) : Browser :=
  fold_left step actions b.


End Loop.

(** The requests a turn added to the log. *)
Definition sent (before after : Browser) : list Request :=
  issued (log (world before)) (world after).

(** The events a task adds to the log in the turn it is run in, up to its
    first [await]. *)
Fixpoint segment (t : Task unit) : list Event :=
  match t with
  | Done _ => []
  | Write _ next => segment next
  | Emit e next => e :: segment next
  | AwaitGame req _ => [Sent req]
  | AwaitFeedback req _ => [Sent req]
  end.


(** [sends ok t]: every request the task sends, now or after any reply,
    satisfies [ok]. *)
Fixpoint sends (ok : Request -> Prop) (t : Task unit) : Prop :=
  match t with
  | Done _ => True
  | Write _ next => sends ok next
  | Emit e next => (forall r, e = Sent r -> ok r) /\ sends ok next
  | AwaitGame req resume => ok req /\ forall reply, sends ok (resume reply)
  | AwaitFeedback req resume => ok req /\ forall reply, sends ok (resume reply)
  end.

(** [resumes ok t]: every request the task sends after its first [await]
    satisfies [ok]. *)
Fixpoint resumes (ok : Request -> Prop) (t : Task unit) : Prop :=
  match t with
  | Done _ => True
  | Write _ next => resumes ok next
  | Emit _ next => resumes ok next
  | AwaitGame _ resume => forall reply, sends ok (resume reply)
  | AwaitFeedback _ resume => forall reply, sends ok (resume reply)
  end.

(** [quiet t]: the task sends no request, now or later. *)
Definition quiet (t : Task unit) : Prop := sends (fun _ => False) t.

(** [flows t]: the task sends nothing more after the reply to a request for
    a game state; the one request after whose reply it may go on sending is
    POST /guess-feedback with [{correct: false}]. *)
Fixpoint flows (t : Task unit) : Prop :=
  match t with
  | Done _ => True
  | Write _ next => flows next
  | Emit _ next => flows next
  | AwaitGame _ resume => forall reply, quiet (resume reply)
  | AwaitFeedback req resume =>
      req = feedbackRequest false /\ forall reply, flows (resume reply)
  end.

(** A request in flight is POST /guess-feedback with [{correct: false}], or
    nothing is sent any more once its reply has arrived. *)
Inductive feedback_or_quiet (p : Pending) : Prop :=
| is_feedback :
    request p = feedbackRequest false -> flows (arrival p) ->
    feedback_or_quiet p
| is_quiet : quiet (arrival p) -> feedback_or_quiet p.

(** [maintains R t s0 s]: when the task runs on from the state [s], in a
    turn that started in [s0], the turn ends in a state [R]-related to [s0],
    and so does every later turn in which the task is resumed, from
    whatever state. *)
Fixpoint maintains (R : State -> State -> Prop) (t : Task unit)
    (s0 s : State) : Prop :=
  match t with
  | Done _ => R s0 s
  | Write f next => maintains R next s0 (f s)
  | Emit _ next => maintains R next s0 s
  | AwaitGame _ resume =>
      R s0 s /\ forall reply s', maintains R (resume reply) s' s'
  | AwaitFeedback _ resume =>
      R s0 s /\ forall reply s', maintains R (resume reply) s' s'
  end.

End EventLoop.

(** ** Sessions *)

Module Session.

Import Runtime Api Index EventLoop.

(** The page when it is mounted: the initial state, nothing done yet,
    nothing in flight. *)
Definition mounted : Browser :=
  {| world := {| page := initial; log := [] |}; inflight := [] |}.

(** The browsers a user can reach: from the mounted page, by clicking
    controls of the screen that is rendered, by opening or closing the About
    modal, and by the arrival of replies, in any order.  An open modal does
    not keep the clicks from the screen here, so this is no less than what
    a user can reach. *)
Inductive reaches (server : Server) : Browser -> Prop :=
| reach_mounted : reaches server mounted
| reach_click (b : Browser) (screen : Screen) (c : Control) :
    reaches server b ->
    render (page (world b)) = Some screen ->
    In c (controls screen) ->
    reaches server (step server b (Click c))
| reach_modal (b : Browser) (open : bool) :
    reaches server b ->
    reaches server (step server b (Click (AboutModal open)))
| reach_arrive (b : Browser) (n : nat) :
    reaches server b ->
    reaches server (step server b (Arrive n)).

(** The state and log of a reachable browser. *)
Definition reachable (server : Server) (w : World State) : Prop :=
  exists pending, reaches server {| world := w; inflight := pending |}.

(** The answer labels of the backend. *)
Definition backendLabels : list string :=
  ["yes"; "probably_yes"; "unknown"; "probably_no"; "no"].

(** The four shapes of request the API functions build, the answer one with
    a backend label and the feedback one with [correct: false]. *)
Definition expected (r : Request) : Prop :=
  r = startRequest
  \/ r = nextQuestionRequest
  \/ r = feedbackRequest false
  \/ exists questionId label,
       In label backendLabels
       /\ r = post "/answer"
                (Some (Js.JObject [("questionId", Js.JNumber questionId);
                                   ("answer", Js.JString label)])).

(** What holds of the page state in every turn: the game screen is selected
    only with a current state, the result screen only with a guessed
    character, and a guessed character never has a quote of its own. *)
Definition settled (st : State) : Prop :=
  (gameState st = playing -> currentState st <> None)
  /\ (gameState st = result -> guessedCharacter st <> None)
  /\ (forall c, guessedCharacter st = Some c -> quote c = None).

End Session.

(** ** More sample data *)

Module Walkthrough.

Import Runtime Api Index EventLoop Session.

(** A backend that proposes a guess in every game response and accepts
    every feedback. *)
Definition guessing : Server :=
  {| game := fun _ =>
       Resolved (Ok 200 "OK" (Scenario.json_body "{...}" Scenario.proposing));
     feedback := fun _ =>
       Resolved (Ok 200 "OK"
                   (Scenario.json_body "{...}"
                      {| ok := true; message := "recorded" |})) |}.

(** A backend that cannot be reached; [fetch] rejects with the browser's
    message. *)
Definition unreachable (message : string) : Server :=
  {| game := fun _ => Rejected message;
     feedback := fun _ => Rejected message |}.


Definition yesButton : Control :=
  GameButton {| GameScreen.label := "Yes, that's it";
                GameScreen.onClick := GameScreen.onGuessFeedback true;
                GameScreen.disabled := false |}.

Definition noButton : Control :=
  GameButton {| GameScreen.label := "No, keep going";
                GameScreen.onClick := GameScreen.onGuessFeedback false;
                GameScreen.disabled := false |}.


(** Start, then confirm the guess. *)
Definition confirmed : World State :=
  world (steps guessing mounted
           [Click StartButton; Arrive 0%nat; Click yesButton]).

(** Start, then reject the guess; every reply arrives before the next
    click. *)
Definition rejected : World State :=
  world (steps guessing mounted
           [Click StartButton; Arrive 0%nat; Click noButton;
            Arrive 0%nat; Arrive 0%nat]).



End Walkthrough.
(** * Properties *)

Import Runtime Api Index.
Local Open Scope list_scope.

Arguments Js.number_to_string : simpl never.

(** ** Answer labels *)

Lemma mapAnswerToBackend_ui_values :
  mapAnswerToBackend "yes" = Js.Str "yes"
  /\ mapAnswerToBackend "probably-yes" = Js.Str "probably_yes"
  /\ mapAnswerToBackend "maybe" = Js.Str "unknown"
  /\ mapAnswerToBackend "probably-no" = Js.Str "probably_no"
  /\ mapAnswerToBackend "no" = Js.Str "no".
Proof. repeat split; reflexivity. Qed.

Lemma mapAnswerToBackend_not_a_property (answer : string) :
  Js.lookup answer mapping = None ->
  Js.lookup answer Js.Object_prototype = None ->
  mapAnswerToBackend answer = Js.Str "unknown".
Proof.
  intros Hown Hproto. unfold mapAnswerToBackend, Js.get.
  rewrite Hown, Hproto. reflexivity.
Qed.

Lemma mapAnswerToBackend_not_a_property_witness :
  mapAnswerToBackend "definitely" = Js.Str "unknown".
Proof.
  apply (mapAnswerToBackend_not_a_property "definitely"); reflexivity.
Defined.

Lemma skipn_length_app {A : Type} (l1 l2 : list A) :
  skipn (length l1) (l1 ++ l2) = l2.
Proof. induction l1 as [| a l1 IH]; [reflexivity | exact IH]. Qed.

Lemma skipn_length {A : Type} (l : list A) : skipn (length l) l = [].
Proof. induction l as [| a l IH]; [reflexivity | exact IH]. Qed.

(** Unfolds one run of the client down to the server's replies. *)
Ltac unfold_client :=
  unfold run, issued, shown, displayed, started, click, callback,
    handleStartGame, handleQuitGame, handleAnswer, handleGuessFeedback,
    startGame, submitAnswer, getNextQuestion, submitGuessFeedback,
    check_ok, errorOr, parseJsonResponse, fetch,
    startRequest, answerRequest, feedbackRequest, nextQuestionRequest, post,
    setGameState, setCurrentState, setGuessedCharacter, setShowAbout,
    setIsLoading, toast, emit, set,
    try_finally, try_catch, bind, ret, throw in *.

(** Splits on how a request was served: rejected, ok or not, and on the body
    of the response. *)
Ltac split_reply :=
  repeat match goal with
    | |- context [match ?f ?h with Rejected _ => _ | Resolved _ => _ end] =>
        let m := fresh "m" in
        let status := fresh "status" in
        let statusText := fresh "statusText" in
        let text := fresh "text" in
        let parsed := fresh "parsed" in
        destruct (f h) as [m | [status statusText [text parsed]
                               | status statusText [text parsed]]]; cbn
    | |- context [match ?p with Some _ => _ | None => _ end] =>
        destruct p; cbn
    | |- context [match ?e with
                  | Declared _ => _ | JsonNull => _
                  | OtherError _ => _ | NoError => _
                  end] =>
        destruct e; cbn
    | |- context [if ?b then _ else _] =>
        destruct b; cbn
    end.

(** Reads the events a run added to the log. *)
Ltac read_log :=
  rewrite <- ?app_assoc; rewrite ?skipn_length_app, ?skipn_length; cbn.

(** ** What each handler sends *)

Lemma handleGuessFeedback_confirm (server : Server) (history : list Event)
    (st : State) (g : Candidate) :
  pendingGuess st = Some g ->
  isLoading st = false ->
  run history st (handleGuessFeedback server st true)
  = {| page := {| gameState := result;
                  currentState := currentState st;
                  guessedCharacter :=
                    Some {| name := Api.name g; quote := None |};
                  showAbout := showAbout st;
                  isLoading := false |};
       log := history |}.
Proof.
  intros Hg Hl. unfold run, handleGuessFeedback. rewrite Hg, Hl.
  reflexivity.
Qed.

Lemma handleStartGame_requests (server : Server) (history : list Event)
    (st : State) :
  issued history (run history st (handleStartGame server st))
  = [post "/start" None].
Proof.
  unfold_client; cbn. split_reply; read_log; reflexivity.
Qed.

Lemma handleQuitGame_requests (history : list Event) (st : State) :
  issued history (run history st (handleQuitGame st)) = [].
Proof. unfold_client; cbn. read_log. reflexivity. Qed.

Lemma handleAnswer_requests (server : Server) (history : list Event)
    (st : State) (answer : string) :
  issued history (run history st (handleAnswer server st answer))
  = match pendingQuestion st with
    | Some q => if isLoading st then [] else [answerRequest (id q) answer]
    | None => []
    end.
Proof.
  unfold run, issued, handleAnswer.
  destruct (pendingQuestion st) as [q |]; [| cbn; read_log; reflexivity].
  destruct (isLoading st); [cbn; read_log; reflexivity |].
  unfold_client; cbn. split_reply; read_log; reflexivity.
Qed.

Lemma handleGuessFeedback_skipped (server : Server) (history : list Event)
    (st : State) (correct : bool) :
  pendingGuess st = None \/ isLoading st = true ->
  run history st (handleGuessFeedback server st correct)
  = {| page := st; log := history |}.
Proof.
  unfold run, handleGuessFeedback. intros [H | H].
  - rewrite H. reflexivity.
  - rewrite H. destruct (pendingGuess st); reflexivity.
Qed.

Lemma handleAnswer_skipped (server : Server) (history : list Event)
    (st : State) (answer : string) :
  pendingQuestion st = None \/ isLoading st = true ->
  run history st (handleAnswer server st answer)
  = {| page := st; log := history |}.
Proof.
  unfold run, handleAnswer. intros [H | H].
  - rewrite H. reflexivity.
  - rewrite H. destruct (pendingQuestion st); reflexivity.
Qed.

Lemma handleGuessFeedback_requests (server : Server) (history : list Event)
    (st : State) (correct : bool) :
  let sent :=
    issued history (run history st (handleGuessFeedback server st correct)) in
  existsb isAnswerRequest sent = false
  /\ (sent <> [] -> pendingGuess st <> None /\ isLoading st = false).
Proof.
  unfold run, issued, handleGuessFeedback.
  destruct (pendingGuess st) as [g |];
    [| cbn; read_log; split; [reflexivity | intros H; now elim H]].
  destruct (isLoading st);
    [cbn; read_log; split; [reflexivity | intros H; now elim H] |].
  destruct correct.
  - cbn. read_log. split; [reflexivity | intros H; now elim H].
  - unfold_client; cbn.
    split_reply; read_log;
      (split; [reflexivity | intros _; split; [discriminate | reflexivity]]).
Qed.

(** ** Guess confirmation *)

(** C1 (the code departs from the claim): when the user confirms a pending
    guess, [handleGuessFeedback] sends nothing at all: no POST
    /guess-feedback is issued before the page moves to the result screen,
    whatever the server would have answered. *)
Theorem confirmation_sends_no_feedback (server : Server) (history : list Event) :
  let st := Scenario.page_with Scenario.proposing in
  let w := run history st (handleGuessFeedback server st true) in
  issued history w = []
  /\ log w = history
  /\ gameState (page w) = result
  /\ guessedCharacter (page w)
     = Some {| name := "Sherlock Holmes"; quote := None |}.
Proof.
  intros st w. subst w.
  rewrite (handleGuessFeedback_confirm server history st Scenario.holmes)
    by reflexivity.
  unfold issued. cbn. rewrite skipn_length. repeat split; reflexivity.
Qed.

(** ** Answer labels on the wire *)

(** C2 (the code departs from the claim): the answer string "constructor"
    is not one of the five UI values, yet it is not mapped to "unknown":
    the lookup in the [mapping] literal finds the inherited
    [Object.prototype.constructor], a function, which [JSON.stringify]
    leaves out, so the body of POST /answer has no [answer] field. *)
Theorem submitAnswer_inherited_property (server : Server) (history : list Event) :
  let st := Scenario.page_with Scenario.asking in
  mapAnswerToBackend "constructor" = Js.Function "Object"
  /\ issued history (run history st (handleAnswer server st "constructor"))
     = [post "/answer" (Some (Js.JObject [("questionId", Js.JNumber 7)]))].
Proof.
  intros st. split; [reflexivity |].
  rewrite handleAnswer_requests. reflexivity.
Qed.

(** ** Which screen is shown *)

Lemma render_guess_pending (st : State) :
  gameState st = playing ->
  (isGuessScreen (render st) = true <-> pendingGuess st <> None).
Proof.
  intros Hplaying. unfold render, pendingGuess, isGuessScreen.
  rewrite Hplaying. destruct (currentState st) as [s |]; cbn.
  - unfold GameScreen.GameScreen, gameScreenProps; cbn.
    destruct (guess s) as [g |]; cbn.
    + split; [discriminate | reflexivity].
    + split; [| intros H; now elim H].
      destruct (question s) as [q |]; [| discriminate].
      destruct (String.eqb (text q) ""); cbn;
        [discriminate | destruct (String.eqb (text q) ""); discriminate].
  - split; [discriminate | intros H; now elim H].
Qed.

(** C3, counterexample: after the user confirms the guess, the current
    state still holds the guess (its guess field is non-null), but the page
    presents the result screen, not the guess confirmation. *)
Example confirmed_guess_stays_in_state :
  pendingGuess
    (page (run [] (Scenario.page_with Scenario.proposing)
             (handleGuessFeedback Scenario.healthy
                (Scenario.page_with Scenario.proposing) true)))
  = Some Scenario.holmes
  /\ render
       (page (run [] (Scenario.page_with Scenario.proposing)
                (handleGuessFeedback Scenario.healthy
                   (Scenario.page_with Scenario.proposing) true)))
     = Some (Result "Sherlock Holmes" "I knew it was Sherlock Holmes!")
  /\ isGuessScreen
       (render
          (page (run [] (Scenario.page_with Scenario.proposing)
                   (handleGuessFeedback Scenario.healthy
                      (Scenario.page_with Scenario.proposing) true))))
     = false.
Proof. repeat split; reflexivity. Qed.

(** C3, as amended.  The Guess Policy is the engine's, stated from the
    specification: the guess field of the response it builds is non-null
    exactly in [proposing].  On the client's side: while the game screen is
    selected ([gameState] is [playing]) the page presents the guess
    confirmation exactly when the current state's guess field is non-null,
    hence, for a current state that is the response built in a policy
    state, exactly when that state is [proposing]; on any page it presents
    the guess confirmation only if the field is non-null; and the guess
    confirmation comes with no other interaction: it is not the question
    screen, none of its buttons answers a question, its buttons are Quit
    and the two feedback buttons. *)
Theorem guess_screen_iff_guess_pending (st : State) :
  (forall pi s,
     Engine.guess_field pi s <> None <-> exists c, s = Engine.proposing c)
  /\ (gameState st = playing ->
      (isGuessScreen (render st) = true <-> pendingGuess st <> None))
  /\ (forall pi s response,
        gameState st = playing ->
        currentState st = Some response ->
        guess response = Engine.guess_field pi s ->
        (isGuessScreen (render st) = true <-> exists c, s = Engine.proposing c))
  /\ (isGuessScreen (render st) = true -> pendingGuess st <> None)
  /\ (isGuessScreen (render st) = true ->
      exists view,
        render st = Some (Game view)
        /\ GameScreen.is_question_view view = false
        /\ existsb (fun b => GameScreen.is_answer (GameScreen.onClick b))
             (GameScreen.buttons view) = false
        /\ map GameScreen.onClick (GameScreen.buttons view)
           = [GameScreen.onQuit;
              GameScreen.onGuessFeedback true;
              GameScreen.onGuessFeedback false]).
Proof.
  assert (Hpolicy : forall pi s,
            Engine.guess_field pi s <> None
            <-> exists c, s = Engine.proposing c).
  { intros pi s. destruct s as [| c | c | c]; cbn; split;
      try (intros H; now elim H);
      try (intros (c' & H); discriminate H).
    intros _. exists c. reflexivity. }
  split; [exact Hpolicy | split; [| split; [| split]]].
  - apply render_guess_pending.
  - intros pi s response Hplaying Hcurrent Hguess.
    rewrite <- (Hpolicy pi s), <- Hguess.
    rewrite (render_guess_pending st Hplaying).
    unfold pendingGuess. rewrite Hcurrent. reflexivity.
  - destruct (gameState st) eqn:Hgs.
    + unfold render, isGuessScreen. rewrite Hgs. discriminate.
    + apply render_guess_pending. exact Hgs.
    + unfold render, isGuessScreen. rewrite Hgs.
      destruct (guessedCharacter st); discriminate.
  - unfold render, isGuessScreen.
    destruct (gameState st);
      [discriminate | | destruct (guessedCharacter st); discriminate].
    destruct (currentState st) as [s |]; [| discriminate].
    unfold GameScreen.GameScreen, gameScreenProps; cbn.
    destruct (guess s) as [g |]; cbn.
    + intros _. eexists. repeat split; reflexivity.
    + destruct (question s) as [q |]; [| discriminate].
      destruct (String.eqb (text q) ""); cbn;
        [discriminate | destruct (String.eqb (text q) ""); discriminate].
Qed.

Lemma guess_screen_iff_guess_pending_witness :
  isGuessScreen (render (Scenario.page_with Scenario.proposing)) = true.
Proof.
  apply (proj1 (proj2 (guess_screen_iff_guess_pending
                         (Scenario.page_with Scenario.proposing))));
    [reflexivity | discriminate].
Defined.

(** ** What a click sends *)

Lemma click_answer_requests (server : Server) (history : list Event)
    (st : State) (c : Control) :
  existsb isAnswerRequest (issued history (run history st (click server st c)))
  = true ->
  exists b answer,
    c = GameButton b
    /\ GameScreen.disabled b = false
    /\ GameScreen.onClick b = GameScreen.onAnswer answer
    /\ pendingQuestion st <> None
    /\ isLoading st = false.
Proof.
  destruct c as [| | | characterName | b | open]; unfold click.
  - rewrite handleStartGame_requests. discriminate.
  - unfold_client; cbn. read_log. discriminate.
  - rewrite handleStartGame_requests. discriminate.
  - unfold_client; cbn. read_log. discriminate.
  - destruct (GameScreen.disabled b) eqn:Hdisabled.
    + unfold_client; cbn. read_log. discriminate.
    + unfold callback. destruct (GameScreen.onClick b) as [| answer | correct] eqn:Hclick.
      * rewrite handleQuitGame_requests. discriminate.
      * rewrite handleAnswer_requests.
        destruct (pendingQuestion st) as [q |]; [| discriminate].
        destruct (isLoading st); [discriminate |].
        intros _. exists b, answer. repeat split; try assumption. discriminate.
      * intros H.
        destruct (handleGuessFeedback_requests server history st correct) as [Hnone _].
        cbv zeta in Hnone. rewrite Hnone in H. discriminate.
  - unfold_client; cbn. read_log. discriminate.
Qed.

(** ** No answer while a guess is pending *)

(** C10: whenever the guess is non-null GameScreen renders the guess
    screen, whose buttons are the two feedback buttons and Quit, none of
    them an answer button; the question screen is rendered only when the
    guess is null; and on a page whose current state holds a guess no
    control of the rendered screen sends a POST /answer when clicked. *)
Theorem no_answer_while_guess_pending :
  (forall props,
     GameScreen.guess props <> None ->
     GameScreen.is_guess_view (GameScreen.GameScreen props) = true
     /\ existsb (fun b => GameScreen.is_answer (GameScreen.onClick b))
          (GameScreen.buttons (GameScreen.GameScreen props)) = false
     /\ map GameScreen.onClick
          (GameScreen.buttons (GameScreen.GameScreen props))
        = [GameScreen.onQuit;
           GameScreen.onGuessFeedback true;
           GameScreen.onGuessFeedback false])
  /\ (forall props,
        GameScreen.is_question_view (GameScreen.GameScreen props) = true ->
        GameScreen.guess props = None)
  /\ (forall st,
        isQuestionScreen (render st) = true -> pendingGuess st = None)
  /\ (forall server history st screen c,
        pendingGuess st <> None ->
        render st = Some screen ->
        In c (controls screen) ->
        existsb isAnswerRequest
          (issued history (run history st (click server st c))) = false).
Proof.
  split; [| split; [| split]].
  - intros props Hguess. unfold GameScreen.GameScreen.
    destruct (GameScreen.guess props) as [g |]; [| now elim Hguess].
    repeat split; reflexivity.
  - intros props. unfold GameScreen.GameScreen.
    destruct (GameScreen.guess props) as [g |]; [discriminate | reflexivity].
  - intros st. unfold render, isQuestionScreen, pendingGuess.
    destruct (gameState st);
      [discriminate | | destruct (guessedCharacter st); discriminate].
    destruct (currentState st) as [s |]; [| discriminate].
    unfold GameScreen.GameScreen, gameScreenProps; cbn.
    destruct (guess s) as [g |]; [discriminate | reflexivity].
  - intros server history st screen c Hguess Hrender Hin.
    destruct (existsb isAnswerRequest
                (issued history (run history st (click server st c)))) eqn:Hsent;
      [| reflexivity].
    exfalso.
    destruct (click_answer_requests server history st c Hsent)
      as (b & answer & -> & _ & Hclick & _ & _).
    unfold render, pendingGuess in *.
    destruct (gameState st).
    + injection Hrender as <-. cbn in Hin.
      destruct Hin as [H | [H | []]]; discriminate.
    + destruct (currentState st) as [s |]; [| now elim Hguess].
      injection Hrender as <-.
      unfold GameScreen.GameScreen, gameScreenProps in Hin; cbn in Hin.
      destruct (guess s) as [g |]; [| now elim Hguess].
      cbn in Hin.
      destruct Hin as [H | [H | [H | []]]];
        injection H as <-; discriminate.
    + destruct (guessedCharacter st); [| discriminate].
      injection Hrender as <-. cbn in Hin.
      destruct Hin as [H | [H | []]]; discriminate.
Qed.

Lemma no_answer_while_guess_pending_witness :
  existsb isAnswerRequest
    (issued []
       (run [] (Scenario.page_with Scenario.proposing)
          (click Scenario.healthy (Scenario.page_with Scenario.proposing)
             (GameButton
                {| GameScreen.label := "No, keep going";
                   GameScreen.onClick := GameScreen.onGuessFeedback false;
                   GameScreen.disabled := false |}))))
  = false.
Proof.
  refine (proj2 (proj2 (proj2 no_answer_while_guess_pending))
            Scenario.healthy [] (Scenario.page_with Scenario.proposing)
            _ _ _ eq_refl _).
  - discriminate.
  - right. right. left. reflexivity.
Defined.

(** ** Failed calls *)

(** Like [split_reply], for a goal proved under an assumed outcome of the
    API calls: each split is carried into the assumptions, and an outcome
    that contradicts the reply closes the case. *)
Ltac follow_calls :=
  cbn in *;
  repeat match goal with
    | H : (_, _) = (_, _) |- _ => injection H as ? ?; subst; cbn in *
    | H : Throw _ = Return _ |- _ => discriminate H
    | H : Return _ = Throw _ |- _ => discriminate H
    | H : Throw _ = Throw _ |- _ => injection H as <-
    | H : Return _ = Return _ |- _ => injection H as <-
    | |- context [match ?f ?h with Rejected _ => _ | Resolved _ => _ end] =>
        let m := fresh "m" in
        let status := fresh "status" in
        let statusText := fresh "statusText" in
        let text := fresh "text" in
        let parsed := fresh "parsed" in
        destruct (f h) as [m | [status statusText [text parsed]
                               | status statusText [text parsed]]]; cbn in *
    | |- context [match ?p with Some _ => _ | None => _ end] =>
        destruct p; cbn in *
    | |- context [match ?e with
                  | Declared _ => _ | JsonNull => _
                  | OtherError _ => _ | NoError => _
                  end] =>
        destruct e; cbn in *
    | |- context [if ?b then _ else _] =>
        destruct b; cbn in *
    end.

Lemma handleStartGame_failure (server : Server) (history : list Event)
    (st : State) (e : Exn) :
  fst (startGame server (started history st)) = Throw e ->
  displayed (page (run history st (handleStartGame server st))) = displayed st
  /\ shown history (run history st (handleStartGame server st)) = [errorToast e].
Proof.
  intros H. unfold_client. follow_calls; read_log; auto.
Qed.

Lemma handleAnswer_failure (server : Server) (history : list Event)
    (st : State) (q : Question) (answer : string) (e : Exn) :
  pendingQuestion st = Some q ->
  isLoading st = false ->
  fst (submitAnswer server (id q) answer (started history st)) = Throw e ->
  displayed (page (run history st (handleAnswer server st answer))) = displayed st
  /\ shown history (run history st (handleAnswer server st answer)) = [errorToast e].
Proof.
  intros Hq Hl H. unfold run, handleAnswer. rewrite Hq, Hl. clear Hq Hl.
  unfold_client. follow_calls; read_log; auto.
Qed.

Lemma handleGuessFeedback_failure (server : Server) (history : list Event)
    (st : State) (g : Candidate) (e : Exn) :
  pendingGuess st = Some g ->
  isLoading st = false ->
  fst (submitGuessFeedback server false (started history st)) = Throw e
  \/ (exists ack w1,
        submitGuessFeedback server false (started history st) = (Return ack, w1)
        /\ fst (getNextQuestion server w1) = Throw e) ->
  displayed (page (run history st (handleGuessFeedback server st false))) = displayed st
  /\ shown history (run history st (handleGuessFeedback server st false)) = [errorToast e].
Proof.
  intros Hg Hl H. unfold run, handleGuessFeedback. rewrite Hg, Hl. clear Hg Hl.
  destruct H as [H | (ack & w1 & H1 & H)];
    unfold_client; follow_calls; read_log; auto.
Qed.

Lemma click_toast_keeps_display (server : Server) (history : list Event)
    (st : State) (c : Control) :
  shown history (run history st (click server st c)) <> [] ->
  displayed (page (run history st (click server st c))) = displayed st.
Proof.
  assert (Hskip : shown history {| page := st; log := history |} <> [] ->
                  displayed st = displayed st) by reflexivity.
  destruct c as [| | | characterName | b | open]; unfold click.
  - unfold_client. follow_calls; read_log; intros H;
      first [reflexivity | now elim H].
  - unfold_client. cbn. read_log. intros H. now elim H.
  - unfold_client. follow_calls; read_log; intros H;
      first [reflexivity | now elim H].
  - unfold_client. cbn. read_log. intros H. now elim H.
  - destruct (GameScreen.disabled b); [exact Hskip |].
    unfold callback. destruct (GameScreen.onClick b) as [| answer | correct].
    + unfold_client. cbn. read_log. intros H. now elim H.
    + unfold run, handleAnswer.
      destruct (pendingQuestion st) as [q |]; [| exact Hskip].
      destruct (isLoading st); [exact Hskip |].
      unfold_client. follow_calls; read_log; intros H;
        first [reflexivity | now elim H].
    + unfold run, handleGuessFeedback.
      destruct (pendingGuess st) as [g |]; [| exact Hskip].
      destruct (isLoading st); [exact Hskip |].
      destruct correct.
      * unfold_client. cbn. read_log. intros H. now elim H.
      * unfold_client. follow_calls; read_log; intros H;
          first [reflexivity | now elim H].
  - unfold_client. cbn. read_log. intros H. now elim H.
Qed.

(** C9: when the API call of a handler throws (the second call of the
    rejection path included), the handler leaves [gameState],
    [currentState] and [guessedCharacter] as they were and shows exactly one
    toast, with the error's message; a handler that calls the API changes
    what is displayed only when its calls returned; and whatever is
    clicked, a run that ends in an error toast has changed nothing that is
    displayed. *)
Theorem failed_call_keeps_display (server : Server) (history : list Event)
    (st : State) :
  (forall e,
     fst (startGame server (started history st)) = Throw e ->
     displayed (page (run history st (handleStartGame server st))) = displayed st
     /\ shown history (run history st (handleStartGame server st))
        = [errorToast e])
  /\ (forall q answer e,
        pendingQuestion st = Some q ->
        isLoading st = false ->
        fst (submitAnswer server (id q) answer (started history st)) = Throw e ->
        displayed (page (run history st (handleAnswer server st answer)))
        = displayed st
        /\ shown history (run history st (handleAnswer server st answer))
           = [errorToast e])
  /\ (forall g e,
        pendingGuess st = Some g ->
        isLoading st = false ->
        fst (submitGuessFeedback server false (started history st)) = Throw e
        \/ (exists ack w1,
              submitGuessFeedback server false (started history st)
              = (Return ack, w1)
              /\ fst (getNextQuestion server w1) = Throw e) ->
        displayed (page (run history st (handleGuessFeedback server st false)))
        = displayed st
        /\ shown history (run history st (handleGuessFeedback server st false))
           = [errorToast e])
  /\ (displayed (page (run history st (handleStartGame server st)))
      <> displayed st ->
      exists state, fst (startGame server (started history st)) = Return state)
  /\ (forall answer,
        displayed (page (run history st (handleAnswer server st answer)))
        <> displayed st ->
        exists q newState,
          pendingQuestion st = Some q
          /\ fst (submitAnswer server (id q) answer (started history st))
             = Return newState)
  /\ (displayed (page (run history st (handleGuessFeedback server st false)))
      <> displayed st ->
      exists ack w1 newState,
        submitGuessFeedback server false (started history st) = (Return ack, w1)
        /\ fst (getNextQuestion server w1) = Return newState)
  /\ (forall c,
        shown history (run history st (click server st c)) <> [] ->
        displayed (page (run history st (click server st c))) = displayed st).
Proof.
  split; [| split; [| split; [| split; [| split; [| split]]]]].
  - intros e. apply handleStartGame_failure.
  - intros q answer e. apply handleAnswer_failure.
  - intros g e. apply handleGuessFeedback_failure.
  - intros Hchanged.
    destruct (fst (startGame server (started history st))) as [state | e] eqn:Hcall.
    + exists state. reflexivity.
    + elim Hchanged. apply (handleStartGame_failure server history st e Hcall).
  - intros answer Hchanged.
    destruct (pendingQuestion st) as [q |] eqn:Hq;
      [| elim Hchanged; rewrite handleAnswer_skipped; auto].
    destruct (isLoading st) eqn:Hl;
      [elim Hchanged; rewrite handleAnswer_skipped; auto |].
    destruct (fst (submitAnswer server (id q) answer (started history st)))
      as [newState | e] eqn:Hcall.
    + exists q, newState. split; [reflexivity | exact Hcall].
    + elim Hchanged.
      apply (handleAnswer_failure server history st q answer e Hq Hl Hcall).
  - intros Hchanged.
    destruct (pendingGuess st) as [g |] eqn:Hg;
      [| elim Hchanged; rewrite handleGuessFeedback_skipped; auto].
    destruct (isLoading st) eqn:Hl;
      [elim Hchanged; rewrite handleGuessFeedback_skipped; auto |].
    destruct (submitGuessFeedback server false (started history st))
      as [[ack | e] w1] eqn:Hfirst.
    + destruct (fst (getNextQuestion server w1)) as [newState | e] eqn:Hsecond.
      * exists ack, w1, newState. split; [reflexivity | exact Hsecond].
      * elim Hchanged.
        apply (handleGuessFeedback_failure server history st g e Hg Hl).
        right. exists ack, w1. split; [exact Hfirst | exact Hsecond].
    + elim Hchanged.
      apply (handleGuessFeedback_failure server history st g e Hg Hl).
      left. rewrite Hfirst. reflexivity.
  - intros c. apply click_toast_keeps_display.
Qed.

Lemma failed_call_keeps_display_witness :
  displayed
    (page (run [] (Scenario.page_with Scenario.asking)
             (handleAnswer (Scenario.failing "boom")
                (Scenario.page_with Scenario.asking) "yes")))
  = displayed (Scenario.page_with Scenario.asking)
  /\ shown []
       (run [] (Scenario.page_with Scenario.asking)
          (handleAnswer (Scenario.failing "boom")
             (Scenario.page_with Scenario.asking) "yes"))
     = [errorToast (Error "boom")].
Proof.
  exact (proj1 (proj2 (failed_call_keeps_display (Scenario.failing "boom") []
                         (Scenario.page_with Scenario.asking)))
           {| id := 7; text := "Can they fly?" |} "yes" (Error "boom")
           eq_refl eq_refl eq_refl).
Defined.

(** ** Rejected guesses *)




(** ** Error responses *)

(** Decides the tests of [parseJsonResponse] and of [||] from what is
    assumed about the body. *)
Ltac decide_body :=
  repeat match goal with
    | H : ?s <> "" |- context [String.eqb ?s ""] =>
        rewrite (proj2 (String.eqb_neq s "") H)
    | H : ?s = "" |- context [String.eqb ?s ""] =>
        rewrite (proj2 (String.eqb_eq s "") H)
    | H : ?p = _ |- context [match ?p with Some _ => _ | None => _ end] =>
        rewrite H
    end.

(** Takes what a conjunct assumes about the body into the goal. *)
Ltac assume_body :=
  intros; cbn in *;
  repeat match goal with
    | H : ?x = _ |- _ => is_var x; subst x
    | H : _ \/ _ |- _ => destruct H
    end;
  unfold or_else; cbn; decide_body; cbn; decide_body; cbn.

Ltac prove_contract :=
  intros w; unfold_client; cbn;
  match goal with
  | |- context [match ?f ?h with Rejected _ => _ | Resolved _ => _ end] =>
      destruct (f h) as [m | [status statusText [text parsed]
                             | status statusText [text parsed]]]; cbn
  end;
  [ split_reply; eexists; reflexivity
  | repeat split; assume_body; try reflexivity
  | split; [split_reply; eexists; reflexivity |];
    repeat split; assume_body;
    first [ reflexivity
          | eexists; reflexivity
          | split_reply; reflexivity ] ].

(** C6, counterexample: a response with status 500 and body
    [{"error": ""}] carries an error field, but the thrown message is the
    function's own fallback, not the field; and on a response with status
    500 and body [null] what is thrown is the [TypeError] of reading a
    property of [null]. *)
Example empty_error_field_gets_fallback :
  fst (submitAnswer (Scenario.failing "") 7 "yes" {| page := tt; log := [] |})
  = Throw (Error "Failed to submit answer")
  /\ exists message,
       fst (submitAnswer Scenario.failing_null 7 "yes"
              {| page := tt; log := [] |})
       = Throw (TypeError message).
Proof. split; [reflexivity | eexists; reflexivity]. Qed.

(** C6, as amended.  The error responses of the specification (a status
    that is not 2xx, body [{error: string}]) are the case [Declared] below.
    Each of the four API functions throws on every response that is not
    ok and on every response whose body is empty or not JSON, and returns
    only on an ok response whose body parses.  On a response that is not ok
    it throws an [Error] whose message is the body's error field when that
    is a non-empty string, the function's fallback message when it is the
    empty string, and the constructed "Server error" message when the body
    is empty or not JSON; on a body that is JSON but not of the declared
    shape it throws a [TypeError] for [null], and otherwise an [Error] with
    the string of a truthy error property or with the fallback. *)
Theorem api_reports_failures (S : Type) (server : Server) :
  reports_failures (@startGame S server) (game server)
    startRequest "Failed to start game"
  /\ (forall questionId answer,
        reports_failures (@submitAnswer S server questionId answer)
          (game server) (answerRequest questionId answer)
          "Failed to submit answer")
  /\ reports_failures (@getNextQuestion S server) (game server)
       nextQuestionRequest "Failed to get next question"
  /\ (forall correct,
        reports_failures (@submitGuessFeedback S server correct)
          (feedback server) (feedbackRequest correct)
          "Failed to submit feedback").
Proof.
  unfold reports_failures.
  split; [| split; [| split]]; intros.
  - revert w. prove_contract.
  - revert w. prove_contract.
  - revert w. prove_contract.
  - revert w. prove_contract.
Qed.

Lemma api_reports_failures_witness :
  fst (submitAnswer (Scenario.failing "boom") 7 "yes" {| page := tt; log := [] |})
  = Throw (Error "boom").
Proof.
  apply (proj1 (proj2 (proj1 (proj2 (api_reports_failures unit
                                       (Scenario.failing "boom")))
                         7 "yes" {| page := tt; log := [] |}))
           {| error := "boom" |});
    [discriminate | reflexivity | discriminate].
Defined.

(** ** The typed contract *)

(** Splits on whether the field name [f] is one of the declared ones. *)
Ltac split_field f :=
  repeat match goal with
    | |- context [String.eqb ?k f] =>
        let E := fresh "E" in
        destruct (String.eqb k f) eqn:E;
        [apply String.eqb_eq in E; subst f; cbn |]
    end.

(** C4, counterexample: the interface declares a field [questionIndex], of
    type [number | null], that the documented response body does not list. *)
Example questionIndex_is_declared :
  Js.lookup "questionIndex" Contract.GameState
  = Some (Contract.nullable Contract.TNumber)
  /\ Js.lookup "questionIndex" Contract.documented_response = None.
Proof. split; reflexivity. Qed.

(** C4, as amended: the interface [GameState] declares every field of the
    documented response body at the documented type, and exactly one field
    more, [questionIndex] of type [number | null]. *)
Theorem GameState_fields :
  (forall f t,
     Js.lookup f Contract.documented_response = Some t ->
     Js.lookup f Contract.GameState = Some t)
  /\ (forall f t,
        Js.lookup f Contract.GameState = Some t ->
        Js.lookup f Contract.documented_response = Some t
        \/ (f = "questionIndex" /\ t = Contract.nullable Contract.TNumber))
  /\ Contract.field_names Contract.GameState
     = ["question"; "questionIndex"; "questionNumber"; "entropy";
        "topCandidates"; "guess"]
  /\ NoDup (Contract.field_names Contract.GameState).
Proof.
  split; [| split; [| split]].
  - intros f t. unfold Contract.documented_response, Contract.GameState.
    cbn [Js.lookup]. split_field f; intros H; try exact H; discriminate H.
  - intros f t. unfold Contract.documented_response, Contract.GameState.
    cbn [Js.lookup]. split_field f; intros H; try (left; exact H).
    right. injection H as <-. split; reflexivity.
  - reflexivity.
  - cbn. repeat constructor; cbn; intuition discriminate.
Qed.

(** ** Further properties of the handlers *)

(** When [submitAnswer] returns, [handleAnswer] makes its result the
    current state, changes nothing else that is displayed, shows no toast
    and clears [isLoading]. *)
Lemma handleAnswer_adopts_response (server : Server) (history : list Event)
    (st : State) (q : Question) (answer : string) (newState : GameState) :
  pendingQuestion st = Some q ->
  isLoading st = false ->
  fst (submitAnswer server (id q) answer (started history st)) = Return newState ->
  page (run history st (handleAnswer server st answer))
  = {| gameState := gameState st;
       currentState := Some newState;
       guessedCharacter := guessedCharacter st;
       showAbout := showAbout st;
       isLoading := false |}
  /\ shown history (run history st (handleAnswer server st answer)) = [].
Proof.
  intros Hq Hl H. unfold run, handleAnswer. rewrite Hq, Hl. clear Hq Hl.
  unfold_client. follow_calls; read_log; auto.
Qed.

Lemma handleAnswer_adopts_response_witness :
  page (run [] (Scenario.page_with Scenario.asking)
          (handleAnswer Scenario.healthy (Scenario.page_with Scenario.asking)
             "probably-no"))
  = Scenario.page_with Scenario.asking
  /\ shown []
       (run [] (Scenario.page_with Scenario.asking)
          (handleAnswer Scenario.healthy (Scenario.page_with Scenario.asking)
             "probably-no"))
     = [].
Proof.
  exact (handleAnswer_adopts_response Scenario.healthy []
           (Scenario.page_with Scenario.asking)
           {| id := 7; text := "Can they fly?" |} "probably-no"
           Scenario.asking eq_refl eq_refl eq_refl).
Defined.

(** When [startGame] returns, [handleStartGame] shows the game screen on
    the returned state, with no guessed character and [isLoading] cleared. *)
Lemma handleStartGame_adopts_response (server : Server)
    (history : list Event) (st : State) (state : GameState) :
  fst (startGame server (started history st)) = Return state ->
  page (run history st (handleStartGame server st))
  = {| gameState := playing;
       currentState := Some state;
       guessedCharacter := None;
       showAbout := showAbout st;
       isLoading := false |}.
Proof.
  intros H. unfold_client. follow_calls; auto.
Qed.

Lemma handleStartGame_adopts_response_witness :
  page (run [] initial (handleStartGame Scenario.healthy initial))
  = Scenario.page_with Scenario.asking.
Proof.
  exact (handleStartGame_adopts_response Scenario.healthy [] initial
           Scenario.asking eq_refl).
Defined.

(** Whatever is clicked on a page that is not loading, and however the
    server answers, the page is not loading when the handler is done. *)
Lemma click_clears_isLoading (server : Server) (history : list Event)
    (st : State) (c : Control) :
  isLoading st = false ->
  isLoading (page (run history st (click server st c))) = false.
Proof.
  intros Hl. destruct c as [| | | characterName | b | open]; unfold click.
  - unfold_client. follow_calls; reflexivity.
  - unfold_client. cbn. exact Hl.
  - unfold_client. follow_calls; reflexivity.
  - unfold_client. cbn. exact Hl.
  - destruct (GameScreen.disabled b); [exact Hl |].
    unfold callback. destruct (GameScreen.onClick b) as [| answer | correct].
    + unfold_client. cbn. exact Hl.
    + unfold run, handleAnswer.
      destruct (pendingQuestion st) as [q |]; [| exact Hl].
      rewrite Hl. unfold_client. follow_calls; reflexivity.
    + unfold run, handleGuessFeedback.
      destruct (pendingGuess st) as [g |]; [| exact Hl].
      rewrite Hl. destruct correct; [reflexivity |].
      unfold_client. follow_calls; reflexivity.
  - unfold_client. cbn. exact Hl.
Qed.

Lemma click_clears_isLoading_witness :
  isLoading
    (page (run [] (Scenario.page_with Scenario.asking)
             (click (Scenario.failing "boom")
                (Scenario.page_with Scenario.asking) StartButton)))
  = false.
Proof.
  exact (click_clears_isLoading (Scenario.failing "boom") []
           (Scenario.page_with Scenario.asking) StartButton eq_refl).
Defined.

(** ** The normalization invariant of the Posterior Updater *)

Section Normalization.

Import Engine.
Local Open Scope Q_scope.

Lemma likelihood_positive (a : Answer) (p : Q) : 0 < likelihood a p.
Proof.
  unfold likelihood.
  apply Qlt_le_trans with (y := likelihood_floor); [reflexivity |].
  apply Q.le_max_l.
Qed.

Lemma total_scaled (s : Q) (pi : Posterior) :
  total (map (fun entry => (fst entry, snd entry / s)) pi) == total pi / s.
Proof.
  induction pi as [| entry pi IH]; unfold total in *;
    cbn [map fold_right fst snd].
  - unfold Qdiv. ring.
  - rewrite IH. unfold Qdiv. ring.
Qed.

Lemma total_normalize (pi : Posterior) :
  ~ total pi == 0 -> total (normalize pi) == 1.
Proof.
  intros Hs. unfold normalize. rewrite total_scaled.
  unfold Qdiv. apply Qmult_inv_r. exact Hs.
Qed.

Lemma total_nonnegative (pi : Posterior) : nonnegative pi -> 0 <= total pi.
Proof.
  induction 1 as [| entry pi Hentry _ IH]; unfold total in *;
    cbn [fold_right].
  - apply Qle_refl.
  - exact (Qplus_le_compat 0 (snd entry) 0 _ Hentry IH).
Qed.

Lemma total_positive (pi : Posterior) :
  pi <> [] -> Forall (fun entry => 0 < snd entry) pi -> 0 < total pi.
Proof.
  intros Hne Hall. destruct Hall as [| entry pi Hentry Hrest]; [now elim Hne |].
  refine (Qplus_lt_le_compat 0 (snd entry) 0 (total pi) Hentry _).
  apply total_nonnegative. unfold nonnegative.
  apply Forall_impl with (2 := Hrest). intros e. apply Qlt_le_weak.
Qed.

Lemma normalize_nonnegative (pi : Posterior) :
  nonnegative pi -> 0 < total pi -> nonnegative (normalize pi).
Proof.
  intros Hall Hs. unfold normalize, nonnegative in *.
  apply Forall_map. apply Forall_impl with (2 := Hall).
  intros entry Hentry; cbn [fst snd].
  apply Qle_shift_div_l; [exact Hs |]. rewrite Qmult_0_l. exact Hentry.
Qed.

Lemma weigh_nonnegative (kb : list Character) (q : Question) (a : Answer)
    (pi : Posterior) :
  nonnegative pi -> nonnegative (weigh kb q a pi).
Proof.
  intros Hall. unfold weigh, nonnegative in *.
  apply Forall_map. apply Forall_impl with (2 := Hall).
  intros entry Hentry; cbn [fst snd].
  apply Qmult_le_0_compat; [exact Hentry |].
  apply Qlt_le_weak. apply likelihood_positive.
Qed.

Lemma remix_normalized (pi : Posterior) :
  pi <> [] -> nonnegative (remix pi) /\ total (remix pi) == 1.
Proof.
  intros Hne. unfold remix.
  set (raised := map (fun entry => (fst entry, Qmax likelihood_floor (snd entry))) pi).
  assert (Hpos : 0 < total raised).
  { apply total_positive.
    - subst raised. destruct pi; [now elim Hne | discriminate].
    - subst raised. apply Forall_map. apply Forall_forall. intros entry _; cbn [fst snd].
      apply Qlt_le_trans with (y := likelihood_floor); [reflexivity |].
      apply Q.le_max_l. }
  split.
  - apply normalize_nonnegative; [| exact Hpos].
    subst raised. unfold nonnegative. apply Forall_map. apply Forall_forall.
    intros entry _; cbn [fst snd].
    apply Qle_trans with (y := likelihood_floor); [discriminate |].
    apply Q.le_max_l.
  - apply total_normalize. intros Hzero. rewrite Hzero in Hpos.
    exact (Qlt_irrefl 0 Hpos).
Qed.

Lemma update_normalized (kb : list Character) (q : Question) (a : Answer)
    (pi : Posterior) :
  pi <> [] -> nonnegative pi ->
  nonnegative (update kb q a pi) /\ total (update kb q a pi) == 1.
Proof.
  intros Hne Hall. unfold update.
  destruct (Qeq_bool (total (weigh kb q a pi)) 0) eqn:Hzero.
  - apply remix_normalized. exact Hne.
  - apply Qeq_bool_neq in Hzero.
    assert (Hpos : 0 < total (weigh kb q a pi)).
    { destruct (Qle_lt_or_eq _ _
                  (total_nonnegative _ (weigh_nonnegative kb q a pi Hall)))
        as [H | H].
      - exact H.
      - elim Hzero. symmetry. exact H. }
    split.
    + apply normalize_nonnegative; [apply weigh_nonnegative; exact Hall | exact Hpos].
    + apply total_normalize. exact Hzero.
Qed.

(** C7: an update of the Posterior Updater, run on a non-empty posterior
    with non-negative entries, yields a posterior with non-negative entries
    that sums to 1, so within every tolerance [eps]. *)
Theorem update_is_normalized (kb : list Character) (q : Question)
    (a : Answer) (pi : Posterior) (eps : Q) :
  pi <> [] ->
  nonnegative pi ->
  0 <= eps ->
  nonnegative (update kb q a pi)
  /\ total (update kb q a pi) == 1
  /\ Qabs (total (update kb q a pi) - 1) <= eps.
Proof.
  intros Hne Hall Heps.
  destruct (update_normalized kb q a pi Hne Hall) as [Hnonneg Hone].
  repeat split; [exact Hnonneg | exact Hone |].
  rewrite Hone. exact Heps.
Qed.

Lemma update_is_normalized_witness :
  nonnegative
    (update Scenario.flyers Scenario.canTheyFly yes Scenario.uniform)
  /\ total (update Scenario.flyers Scenario.canTheyFly yes Scenario.uniform)
     == 1
  /\ Qabs (total (update Scenario.flyers Scenario.canTheyFly yes
                    Scenario.uniform) - 1)
     <= 1 # 1000.
Proof.
  apply (update_is_normalized Scenario.flyers Scenario.canTheyFly yes
           Scenario.uniform (1 # 1000)).
  - discriminate.
  - repeat constructor; discriminate.
  - discriminate.
Defined.

End Normalization.

(** ** The event loop *)

Import Session.

Section EventLoopProperties.

Import EventLoop.

Lemma requests_app (l1 l2 : list Event) :
  requests (l1 ++ l2) = requests l1 ++ requests l2.
Proof.
  induction l1 as [| e l1 IH]; [reflexivity |].
  destruct e; cbn; rewrite IH; reflexivity.
Qed.

(** A turn only appends to the log. *)
Lemma advance_log (server : Server) (t : Task unit) (b : Browser) :
  log (world (advance server t b)) = log (world b) ++ segment t.
Proof.
  revert b. induction t as [r | f next IH | e next IH | req resume _ | req resume _];
    intros b; cbn.
  - rewrite app_nil_r. reflexivity.
  - rewrite IH. reflexivity.
  - rewrite IH. cbn. rewrite <- app_assoc. reflexivity.
  - reflexivity.
  - reflexivity.
Qed.

Lemma advance_sent (server : Server) (t : Task unit) (b : Browser) :
  sent b (advance server t b) = requests (segment t).
Proof.
  unfold sent, issued. rewrite advance_log, skipn_length_app. reflexivity.
Qed.

Lemma segment_sends (ok : Request -> Prop) (t : Task unit) :
  sends ok t -> Forall ok (requests (segment t)).
Proof.
  induction t as [r | f next IH | e next IH | req resume _ | req resume _];
    cbn.
  - constructor.
  - exact IH.
  - intros [He H]. destruct e; cbn; auto.
  - intros [H _]. repeat constructor. exact H.
  - intros [H _]. repeat constructor. exact H.
Qed.

Lemma sends_resumes (ok : Request -> Prop) (t : Task unit) :
  sends ok t -> resumes ok t.
Proof.
  induction t as [r | f next IH | e next IH | req resume _ | req resume _];
    cbn; auto; intros [_ H]; auto.
Qed.

(** What is in flight after a turn, when the task that ran and the ones that
    were in flight send only requests satisfying [ok] once resumed. *)
Lemma advance_inflight (server : Server) (ok : Request -> Prop)
    (t : Task unit) (b : Browser) :
  resumes ok t ->
  Forall (fun p => sends ok (arrival p)) (inflight b) ->
  Forall (fun p => sends ok (arrival p)) (inflight (advance server t b)).
Proof.
  revert b. induction t as [r | f next IH | e next IH | req resume _ | req resume _];
    intros b; cbn; intros Ht Hb.
  - exact Hb.
  - apply IH; assumption.
  - apply IH; assumption.
  - apply Forall_app. split; [exact Hb |]. repeat constructor. apply Ht.
  - apply Forall_app. split; [exact Hb |]. repeat constructor. apply Ht.
Qed.

Lemma advance_page (server : Server) (R : State -> State -> Prop)
    (t : Task unit) (b : Browser) (s0 : State) :
  maintains R t s0 (page (world b)) ->
  R s0 (page (world (advance server t b))).
Proof.
  revert b. induction t as [r | f next IH | e next IH | req resume _ | req resume _];
    intros b; cbn; intros Ht.
  - exact Ht.
  - apply IH; assumption.
  - apply IH; assumption.
  - apply Ht.
  - apply Ht.
Qed.

Lemma advance_maintains (server : Server) (R : State -> State -> Prop)
    (t : Task unit) (b : Browser) (s0 : State) :
  maintains R t s0 (page (world b)) ->
  Forall (fun p => forall s, maintains R (arrival p) s s) (inflight b) ->
  Forall (fun p => forall s, maintains R (arrival p) s s)
    (inflight (advance server t b)).
Proof.
  revert b. induction t as [r | f next IH | e next IH | req resume _ | req resume _];
    intros b; cbn; intros Ht Hb.
  - exact Hb.
  - apply IH; assumption.
  - apply IH; assumption.
  - apply Forall_app. split; [exact Hb |]. repeat constructor.
    cbn. intros s. apply Ht.
  - apply Forall_app. split; [exact Hb |]. repeat constructor.
    cbn. intros s. apply Ht.
Qed.

(** Taking a request out of the ones in flight. *)
Lemma Forall_without {A : Type} (P : A -> Prop) (l : list A) (n : nat) :
  Forall P l -> Forall P (firstn n l ++ skipn (S n) l).
Proof.
  intros H. revert n. induction H as [| a l Ha Hl IH]; intros [| n]; cbn.
  - constructor.
  - constructor.
  - exact Hl.
  - constructor; [exact Ha | apply IH].
Qed.

Lemma Forall_nth_error {A : Type} (P : A -> Prop) (l : list A) (n : nat)
    (a : A) :
  Forall P l -> nth_error l n = Some a -> P a.
Proof.
  intros H Hn. apply nth_error_In in Hn.
  rewrite Forall_forall in H. apply H. exact Hn.
Qed.

(** Unfolds a task down to its steps. *)
Ltac unfold_tasks :=
  unfold click, callback,
    handleStartGame, handleQuitGame, handleAnswer, handleGuessFeedback,
    startGame, submitAnswer, getNextQuestion, submitGuessFeedback,
    fetchGame, fetchFeedback, pure, toast,
    setGameState, setCurrentState, setGuessedCharacter, setShowAbout,
    setIsLoading, setter, ret, throw,
    check_ok, errorOr, parseJsonResponse,
    Index.setGameState, Index.setCurrentState, Index.setGuessedCharacter,
    Index.setShowAbout, Index.setIsLoading, Runtime.set,
    Runtime.try_catch, Runtime.bind, Runtime.ret, Runtime.throw in *.

(** Follows a task through every reply it can get. *)
Ltac follow_task :=
  repeat (cbn;
          match goal with
          | |- True => exact I
          | H : Toasted _ = Sent _ |- _ => discriminate H
          | H : Shared _ = Sent _ |- _ => discriminate H
          | |- _ /\ _ => split
          | |- forall _, _ => intro
          | |- context [match ?x with Rejected _ => _ | Resolved _ => _ end] =>
              let m := fresh "m" in
              let status := fresh "status" in
              let statusText := fresh "statusText" in
              let text := fresh "text" in
              let parsed := fresh "parsed" in
              destruct x as [m | [status statusText [text parsed]
                                 | status statusText [text parsed]]]
          | |- context [match ?p with Some _ => _ | None => _ end] =>
              destruct p
          | |- context [match ?e with
                        | Declared _ => _ | JsonNull => _
                        | OtherError _ => _ | NoError => _
                        end] =>
              destruct e
          | |- context [if ?b then _ else _] =>
              destruct b
          end).



Lemma answer_button_values (props : GameScreen.GameScreenProps)
    (b : GameScreen.Button) (answer : string) :
  In b (GameScreen.buttons (GameScreen.GameScreen props)) ->
  GameScreen.onClick b = GameScreen.onAnswer answer ->
  In answer (map fst GameScreen.answers).
Proof.
  unfold GameScreen.GameScreen.
  destruct (GameScreen.guess props) as [g |]; cbn.
  - intros [<- | [<- | [<- | []]]]; discriminate.
  - destruct (GameScreen.question props) as [q |]; [| intros []].
    destruct (String.eqb q ""); [intros [] |]. cbn.
    intros [<- | [<- | [<- | [<- | [<- | [<- | []]]]]]] H;
      try discriminate H; injection H as <-; tauto.
Qed.

Lemma answer_request_expected (questionId : Z) (answer : string) :
  In answer (map fst GameScreen.answers) ->
  expected (answerRequest questionId answer).
Proof.
  cbn. intros [<- | [<- | [<- | [<- | [<- | []]]]]];
    right; right; right; exists questionId; eexists;
    (split; [| reflexivity]); cbn; tauto.
Qed.

(** The answer buttons of a rendered screen carry one of the five values of
    [answers]. *)
Lemma rendered_answer_values (st : State) (screen : Screen)
    (b : GameScreen.Button) (answer : string) :
  render st = Some screen ->
  In (GameButton b) (controls screen) ->
  GameScreen.onClick b = GameScreen.onAnswer answer ->
  In answer (map fst GameScreen.answers).
Proof.
  intros Hrender Hin Hclick.
  destruct screen as [| view | characterName characterQuote]; cbn in Hin.
  - destruct Hin as [H | [H | []]]; discriminate H.
  - apply in_map_iff in Hin. destruct Hin as (b' & Hb & Hin).
    injection Hb as ->.
    unfold render in Hrender.
    destruct (gameState st); try discriminate Hrender.
    + destruct (currentState st) as [s |]; [| discriminate Hrender].
      injection Hrender as <-.
      apply (answer_button_values _ b answer Hin Hclick).
    + destruct (guessedCharacter st); discriminate Hrender.
  - destruct Hin as [H | [H | []]]; discriminate H.
Qed.

(** Whatever a click on a rendered control sends, at once or later, is one
    of the four expected requests. *)
Lemma click_sends_expected (st : State) (screen : Screen) (c : Control) :
  render st = Some screen ->
  In c (controls screen) ->
  sends expected (click st c).
Proof.
  intros Hrender Hin.
  destruct c as [| | | characterName | b | open];
    [| | | | unfold click, callback;
             destruct (GameScreen.disabled b);
             [| destruct (GameScreen.onClick b) as [| answer | correct] eqn:Hclick] |].
  7: {
    pose proof (rendered_answer_values st screen b answer Hrender Hin Hclick)
      as Hanswer.
    unfold handleAnswer.
    destruct (pendingQuestion st) as [q |]; [| exact I].
    destruct (isLoading st); [exact I |].
    unfold_tasks. cbn. split.
    - apply (answer_request_expected (id q) answer Hanswer).
    - follow_task. }
  all: unfold_tasks; follow_task.
  all: first [ left; reflexivity
             | right; left; reflexivity
             | right; right; left; reflexivity ].
Qed.

(** Closes a goal [settled s] on a state whose fields are known, from the
    assumption that the state the turn started in is settled. *)
Ltac show_settled :=
  match goal with
  | H : settled _ |- settled _ =>
      let H1 := fresh "H" in
      let H2 := fresh "H" in
      let H3 := fresh "H" in
      unfold settled in *; cbn in *;
      destruct H as (H1 & H2 & H3);
      repeat split; try discriminate; try assumption;
      let c := fresh "c" in
      let Hc := fresh "H" in
      intros c Hc;
      first [ discriminate Hc | injection Hc as <-; reflexivity ]
  end.

(** Every turn of a handler leaves the page state settled, whatever the
    state of the page when the turn starts. *)
Lemma click_settles (st : State) (c : Control) (s : State) :
  maintains (fun s0 s1 => settled s0 -> settled s1) (click st c) s s.
Proof.
  destruct c as [| | | characterName | b | open];
    [| | | | unfold click, callback;
             destruct (GameScreen.disabled b);
             [| destruct (GameScreen.onClick b) as [| answer | correct]] |];
    unfold_tasks; follow_task; show_settled.
Qed.

(** ** What holds in every reachable browser *)

Lemma turn_sends (server : Server) (ok : Request -> Prop) (t : Task unit)
    (b : Browser) :
  sends ok t ->
  Forall ok (requests (log (world b))) ->
  Forall (fun p => sends ok (arrival p)) (inflight b) ->
  Forall ok (requests (log (world (advance server t b))))
  /\ Forall (fun p => sends ok (arrival p)) (inflight (advance server t b)).
Proof.
  intros Ht Hlog Hflight. split.
  - rewrite advance_log, requests_app. apply Forall_app.
    split; [exact Hlog | apply segment_sends; exact Ht].
  - apply advance_inflight; [apply sends_resumes; exact Ht | exact Hflight].
Qed.

Lemma reaches_expected (server : Server) (b : Browser) :
  reaches server b ->
  Forall expected (requests (log (world b)))
  /\ Forall (fun p => sends expected (arrival p)) (inflight b).
Proof.
  induction 1 as [| b screen c Hb [IHlog IHflight] Hrender Hin
                  | b open Hb [IHlog IHflight]
                  | b n Hb [IHlog IHflight]].
  - split; constructor.
  - apply turn_sends; try assumption.
    apply (click_sends_expected _ screen); assumption.
  - apply turn_sends; try assumption. cbn. exact I.
  - unfold step. destruct (nth_error (inflight b) n) as [p |] eqn:Hp;
      [| split; assumption].
    apply turn_sends; cbn.
    + apply (Forall_nth_error _ _ _ _ IHflight Hp).
    + exact IHlog.
    + apply Forall_without. exact IHflight.
Qed.


Lemma reaches_settled (server : Server) (b : Browser) :
  reaches server b ->
  settled (page (world b))
  /\ Forall (fun p =>
               forall s,
                 maintains (fun s0 s1 => settled s0 -> settled s1)
                   (arrival p) s s)
       (inflight b).
Proof.
  induction 1 as [| b screen c Hb [IHpage IHflight] Hrender Hin
                  | b open Hb [IHpage IHflight]
                  | b n Hb [IHpage IHflight]].
  - split; [| constructor]. unfold settled; cbn.
    repeat split; discriminate.
  - pose proof (click_settles (page (world b)) c (page (world b))) as Ht.
    split.
    + apply (advance_page server _ _ b _ Ht). exact IHpage.
    + apply (advance_maintains server _ _ b _ Ht IHflight).
  - pose proof (click_settles (page (world b)) (AboutModal open)
                  (page (world b))) as Ht.
    split.
    + apply (advance_page server _ _ b _ Ht). exact IHpage.
    + apply (advance_maintains server _ _ b _ Ht IHflight).
  - unfold step. destruct (nth_error (inflight b) n) as [p |] eqn:Hp;
      [| split; assumption].
    pose proof (Forall_nth_error _ _ _ _ IHflight Hp (page (world b))) as Ht.
    split.
    + apply (advance_page server _ (arrival p)
               {| world := world b;
                  inflight := firstn n (inflight b) ++ skipn (S n) (inflight b) |}
               _ Ht).
      exact IHpage.
    + apply (advance_maintains server _ (arrival p)
               {| world := world b;
                  inflight := firstn n (inflight b) ++ skipn (S n) (inflight b) |}
               _ Ht).
      apply Forall_without. exact IHflight.
Qed.

(** Until POST /start has been sent nothing is in flight and the page is
    on the landing screen. *)
Lemma reaches_first (server : Server) (b : Browser) :
  reaches server b ->
  (requests (log (world b)) = []
   /\ gameState (page (world b)) = landing
   /\ inflight b = [])
  \/ exists rest, requests (log (world b)) = startRequest :: rest.
Proof.
  induction 1 as [| b screen c Hb IH Hrender Hin | b open Hb IH | b n Hb IH].
  - left. repeat split.
  - destruct IH as [(Hnone & Hlanding & Hflight) | (rest & Hrest)].
    + unfold render in Hrender. rewrite Hlanding in Hrender.
      injection Hrender as <-. cbn in Hin.
      destruct Hin as [<- | [<- | []]].
      * left. cbn. repeat split; assumption.
      * right. exists []. unfold step. rewrite advance_log, requests_app, Hnone.
        reflexivity.
    + right. unfold step. rewrite advance_log, requests_app, Hrest.
      eexists. reflexivity.
  - destruct IH as [(Hnone & Hlanding & Hflight) | (rest & Hrest)].
    + left. cbn. repeat split; assumption.
    + right. unfold step. rewrite advance_log, requests_app, Hrest.
      eexists. reflexivity.
  - unfold step. destruct (nth_error (inflight b) n) as [p |] eqn:Hp;
      [| exact IH].
    destruct IH as [(Hnone & Hlanding & Hflight) | (rest & Hrest)].
    + rewrite Hflight in Hp. destruct n; discriminate Hp.
    + right. rewrite advance_log, requests_app. cbn. rewrite Hrest.
      eexists. reflexivity.
Qed.

Lemma confirmed_reachable : reachable Walkthrough.guessing Walkthrough.confirmed.
Proof.
  exists [].
  assert (H : reaches Walkthrough.guessing
                (steps Walkthrough.guessing mounted
                   [Click StartButton; Arrive 0%nat; Click Walkthrough.yesButton])).
  { unfold steps; cbn [fold_left].
    eapply reach_click; [apply reach_arrive; eapply reach_click;
                         [apply reach_mounted | |] | |].
    - reflexivity.
    - right; left; reflexivity.
    - reflexivity.
    - right; left; reflexivity. }
  exact H.
Qed.

Lemma rejected_reachable : reachable Walkthrough.guessing Walkthrough.rejected.
Proof.
  exists [].
  assert (H : reaches Walkthrough.guessing
                (steps Walkthrough.guessing mounted
                   [Click StartButton; Arrive 0%nat; Click Walkthrough.noButton;
                    Arrive 0%nat; Arrive 0%nat])).
  { unfold steps; cbn [fold_left].
    do 2 apply reach_arrive.
    eapply reach_click; [apply reach_arrive; eapply reach_click;
                         [apply reach_mounted | |] | |].
    - reflexivity.
    - right; left; reflexivity.
    - reflexivity.
    - right; right; left; reflexivity. }
  exact H.
Qed.

(** What a click sends at once. *)
Lemma click_sent_cases (st : State) (c : Control) :
  requests (segment (click st c)) = []
  \/ requests (segment (click st c)) = [startRequest]
  \/ (exists q b answer,
        c = GameButton b
        /\ GameScreen.onClick b = GameScreen.onAnswer answer
        /\ pendingQuestion st = Some q
        /\ isLoading st = false
        /\ requests (segment (click st c)) = [answerRequest (id q) answer])
  \/ (exists g,
        pendingGuess st = Some g
        /\ isLoading st = false
        /\ requests (segment (click st c)) = [feedbackRequest false]).
Proof.
  destruct c as [| | | characterName | b | open].
  - right; left. reflexivity.
  - left. reflexivity.
  - right; left. reflexivity.
  - left. reflexivity.
  - unfold click, callback. destruct (GameScreen.disabled b); [left; reflexivity |].
    destruct (GameScreen.onClick b) as [| answer | correct] eqn:Hclick.
    + left. reflexivity.
    + unfold handleAnswer.
      destruct (pendingQuestion st) as [q |] eqn:Hq; [| left; reflexivity].
      destruct (isLoading st) eqn:Hl; [left; reflexivity |].
      right; right; left. exists q, b, answer. repeat split; assumption.
    + unfold handleGuessFeedback.
      destruct (pendingGuess st) as [g |] eqn:Hg; [| left; reflexivity].
      destruct (isLoading st) eqn:Hl; [left; reflexivity |].
      destruct correct; [left; reflexivity |].
      right; right; right. exists g. repeat split.
  - left. reflexivity.
Qed.

Lemma quiet_flows (t : Task unit) : quiet t -> flows t.
Proof.
  unfold quiet.
  induction t as [r | f next IH | e next IH | req resume _ | req resume _];
    cbn; auto.
  - intros [_ H]. auto.
  - intros [[] _].
  - intros [[] _].
Qed.

Lemma quiet_sends_nothing (t : Task unit) :
  quiet t -> requests (segment t) = [].
Proof.
  intros H. apply segment_sends in H.
  destruct (requests (segment t)) as [| r rest]; [reflexivity |].
  inversion H as [| r' rest' []].
Qed.

Lemma click_flows (st : State) (c : Control) : flows (click st c).
Proof.
  destruct c as [| | | characterName | b | open];
    [| | | | unfold click, callback;
             destruct (GameScreen.disabled b);
             [| destruct (GameScreen.onClick b) as [| answer | correct]] |];
    unfold quiet; unfold_tasks; follow_task;
    first [ reflexivity | discriminate ].
Qed.

Lemma advance_flows (server : Server) (t : Task unit) (b : Browser) :
  flows t ->
  Forall feedback_or_quiet (inflight b) ->
  Forall feedback_or_quiet (inflight (advance server t b)).
Proof.
  revert b. induction t as [r | f next IH | e next IH | req resume _ | req resume _];
    intros b; cbn; intros Ht Hb.
  - exact Hb.
  - apply IH; assumption.
  - apply IH; assumption.
  - apply Forall_app. split; [exact Hb |]. constructor; [| constructor].
    apply is_quiet. apply Ht.
  - apply Forall_app. split; [exact Hb |]. constructor; [| constructor].
    apply is_feedback; apply Ht.
Qed.

Lemma reaches_flows (server : Server) (b : Browser) :
  reaches server b -> Forall feedback_or_quiet (inflight b).
Proof.
  induction 1 as [| b screen c Hb IH Hrender Hin | b open Hb IH | b n Hb IH].
  - constructor.
  - apply advance_flows; [apply click_flows | exact IH].
  - apply advance_flows; [apply click_flows | exact IH].
  - unfold step. destruct (nth_error (inflight b) n) as [p |] eqn:Hp;
      [| exact IH].
    apply advance_flows; cbn.
    + destruct (Forall_nth_error _ _ _ _ IH Hp) as [_ H | H];
        [exact H | apply quiet_flows; exact H].
    + apply Forall_without. exact IH.
Qed.

(** What the arrival of a reply sends. *)
Lemma arrival_sent (server : Server) (b : Browser) (n : nat) :
  sent b (step server b (Arrive n))
  = match nth_error (inflight b) n with
    | Some p => requests (segment (arrival p))
    | None => []
    end.
Proof.
  unfold step. destruct (nth_error (inflight b) n) as [p |].
  - unfold sent, issued. rewrite advance_log. cbn.
    rewrite skipn_length_app. reflexivity.
  - unfold sent, issued. rewrite skipn_length. reflexivity.
Qed.

(** ** Guards of the handlers under the event loop *)




(** ** Screens in a session *)

(** Provided every reply with a 2xx status whose body parses has the
    declared [GameState] shape: however the server answers, whatever the
    user clicks and in whatever order the replies arrive, the page always
    renders one of its three screens: the game screen is never selected
    without a current state, nor the result screen without a guessed
    character. *)
Theorem reachable_page_shows_a_screen (server : Server) (w : World State) :
  reachable server w -> exists screen, render (page w) = Some screen.
Proof.
  intros (pending & Hw).
  destruct (reaches_settled server _ Hw) as [(Hplaying & Hresult & _) _].
  cbn in *. unfold render. destruct (gameState (page w)).
  - eexists; reflexivity.
  - destruct (currentState (page w));
      [eexists; reflexivity | now elim (Hplaying eq_refl)].
  - destruct (guessedCharacter (page w));
      [eexists; reflexivity | now elim (Hresult eq_refl)].
Qed.

Lemma reachable_page_shows_a_screen_witness :
  exists screen, render (page Walkthrough.rejected) = Some screen.
Proof.
  exact (reachable_page_shows_a_screen Walkthrough.guessing
           Walkthrough.rejected rejected_reachable).
Defined.

(** Whenever the result screen is selected, the guessed character has no
    quote of its own, so the screen shows the character's name with the
    quote "I knew it was <name>!": no other quote is ever shown. *)
Theorem result_screen_shows_default_quote (server : Server)
    (w : World State) :
  reachable server w ->
  gameState (page w) = result ->
  exists characterName,
    guessedCharacter (page w)
    = Some {| name := characterName; quote := None |}
    /\ render (page w)
       = Some (Result characterName
                 ("I knew it was " ++ characterName ++ "!")%string).
Proof.
  intros (pending & Hw) Hresult.
  destruct (reaches_settled server _ Hw) as [(_ & Hguessed & Hquote) _].
  cbn in *. unfold render. rewrite Hresult.
  destruct (guessedCharacter (page w)) as [[characterName q] |];
    [| now elim (Hguessed Hresult)].
  specialize (Hquote _ eq_refl). cbn in Hquote. subst q.
  exists characterName. split; reflexivity.
Qed.

Lemma result_screen_shows_default_quote_witness :
  exists characterName,
    guessedCharacter (page Walkthrough.confirmed)
    = Some {| name := characterName; quote := None |}
    /\ render (page Walkthrough.confirmed)
       = Some (Result characterName
                 ("I knew it was " ++ characterName ++ "!")%string).
Proof.
  exact (result_screen_shows_default_quote Walkthrough.guessing
           Walkthrough.confirmed confirmed_reachable eq_refl).
Defined.

(** ** What goes over the wire in a session *)

(** Every request a session sends is one of four: POST /start, POST
    /next-question, POST /guess-feedback with [{correct: false}], or POST
    /answer with a question id and one of the five backend labels.  In
    particular the page never reports a correct guess, and never sends an
    answer label the backend does not know. *)
Theorem session_requests_expected (server : Server) (w : World State) :
  reachable server w -> Forall expected (requests (log w)).
Proof.
  intros (pending & Hw). apply (reaches_expected server _ Hw).
Qed.

Lemma session_requests_expected_witness :
  Forall expected
    [startRequest; feedbackRequest false; nextQuestionRequest].
Proof.
  exact (session_requests_expected Walkthrough.guessing Walkthrough.rejected
           rejected_reachable).
Defined.

(** The first request of every session is POST /start; until it is sent the
    page stays on the landing screen. *)
Theorem first_request_is_start (server : Server) (w : World State) :
  reachable server w ->
  (requests (log w) = [] /\ gameState (page w) = landing)
  \/ exists rest, requests (log w) = startRequest :: rest.
Proof.
  intros (pending & Hw).
  destruct (reaches_first server _ Hw) as [(Hnone & Hlanding & _) | Hsome].
  - left. split; assumption.
  - right. exact Hsome.
Qed.

Lemma first_request_is_start_witness :
  (requests (log Walkthrough.confirmed) = []
   /\ gameState (page Walkthrough.confirmed) = landing)
  \/ exists rest, requests (log Walkthrough.confirmed) = startRequest :: rest.
Proof.
  exact (first_request_is_start Walkthrough.guessing Walkthrough.confirmed
           confirmed_reachable).
Defined.

(** POST /next-question is sent only when the reply to a POST
    /guess-feedback with [{correct: false}] arrives: no click sends it, and
    the arrival of the reply to any other request sends nothing at all. *)
Theorem next_question_follows_feedback (server : Server) (b : Browser) :
  (forall c, ~ In nextQuestionRequest (sent b (step server b (Click c))))
  /\ (reaches server b ->
      forall n p,
        nth_error (inflight b) n = Some p ->
        request p = feedbackRequest false
        \/ sent b (step server b (Arrive n)) = []).
Proof.
  split.
  - intros c. unfold step. rewrite advance_sent.
    destruct (click_sent_cases (page (world b)) c)
      as [-> | [-> | [(q & button & answer & _ & _ & _ & _ & ->)
                     | (g & _ & _ & ->)]]];
      cbn; intros H; repeat destruct H as [H | H]; try discriminate H;
      try exact H.
  - intros Hb n p Hp. rewrite arrival_sent, Hp.
    destruct (Forall_nth_error _ _ _ _ (reaches_flows server b Hb) Hp)
      as [Hrequest _ | Hquiet].
    + left. exact Hrequest.
    + right. apply quiet_sends_nothing. exact Hquiet.
Qed.

(** ** The About modal *)

Lemma click_keeps_about (st : State) (c : Control) (s : State) :
  match c with
  | AboutButton => True
  | AboutModal _ => True
  | _ =>
      maintains (fun s0 s1 => showAbout s1 = showAbout s0) (click st c) s s
  end.
Proof.
  destruct c as [| | | characterName | b | open];
    [| | | | unfold click, callback;
             destruct (GameScreen.disabled b);
             [| destruct (GameScreen.onClick b) as [| answer | correct]] |];
    try exact I;
    unfold_tasks; follow_task; reflexivity.
Qed.

Lemma click_about_inflight (server : Server) (b : Browser) (c : Control) :
  Forall (fun p =>
            forall s,
              maintains (fun s0 s1 => showAbout s1 = showAbout s0)
                (arrival p) s s)
    (inflight b) ->
  Forall (fun p =>
            forall s,
              maintains (fun s0 s1 => showAbout s1 = showAbout s0)
                (arrival p) s s)
    (inflight (step server b (Click c))).
Proof.
  intros Hb. unfold step.
  pose proof (click_keeps_about (page (world b)) c (page (world b))) as Hc.
  destruct c as [| | | characterName | button | open];
    try exact Hb;
    apply (advance_maintains server _ _ b (page (world b)) Hc Hb).
Qed.

Lemma reaches_about (server : Server) (b : Browser) :
  reaches server b ->
  Forall (fun p =>
            forall s,
              maintains (fun s0 s1 => showAbout s1 = showAbout s0)
                (arrival p) s s)
    (inflight b).
Proof.
  induction 1 as [| b screen c Hb IH Hrender Hin | b open Hb IH | b n Hb IH].
  - constructor.
  - apply click_about_inflight. exact IH.
  - apply click_about_inflight. exact IH.
  - unfold step. destruct (nth_error (inflight b) n) as [p |] eqn:Hp;
      [| exact IH].
    apply (advance_maintains server _ (arrival p)
             {| world := world b;
                inflight := firstn n (inflight b) ++ skipn (S n) (inflight b) |}
             (page (world b))).
    + apply (Forall_nth_error _ _ _ _ IH Hp).
    + apply Forall_without. exact IH.
Qed.

(** The About button opens the modal and the modal's own [onOpenChange]
    opens or closes it; nothing else changes [showAbout], no other click
    and no arrival of a reply; and those two touch nothing but [showAbout]:
    no other state, no request, no toast, nothing in flight. *)
Theorem about_modal_is_independent (server : Server) (b : Browser) :
  (forall c,
     showAbout (page (world (step server b (Click c))))
     = match c with
       | AboutButton => true
       | AboutModal open => open
       | _ => showAbout (page (world b))
       end)
  /\ (reaches server b ->
      forall n,
        showAbout (page (world (step server b (Arrive n))))
        = showAbout (page (world b)))
  /\ step server b (Click AboutButton)
     = {| world := {| page := {| gameState := gameState (page (world b));
                                currentState := currentState (page (world b));
                                guessedCharacter :=
                                  guessedCharacter (page (world b));
                                showAbout := true;
                                isLoading := isLoading (page (world b)) |};
                     log := log (world b) |};
          inflight := inflight b |}
  /\ (forall open,
        step server b (Click (AboutModal open))
        = {| world := {| page := {| gameState := gameState (page (world b));
                                   currentState := currentState (page (world b));
                                   guessedCharacter :=
                                     guessedCharacter (page (world b));
                                   showAbout := open;
                                   isLoading := isLoading (page (world b)) |};
                        log := log (world b) |};
             inflight := inflight b |}).
Proof.
  split; [| split; [| split]].
  - intros c. unfold step.
    pose proof (click_keeps_about (page (world b)) c (page (world b))) as Hc.
    destruct c as [| | | characterName | button | open];
      try reflexivity;
      apply (advance_page server _ _ b (page (world b)) Hc).
  - intros Hb n. unfold step.
    destruct (nth_error (inflight b) n) as [p |] eqn:Hp; [| reflexivity].
    apply (advance_page server
             (fun s0 s1 => showAbout s1 = showAbout s0) (arrival p)
             {| world := world b;
                inflight := firstn n (inflight b) ++ skipn (S n) (inflight b) |}
             (page (world b))).
    apply (Forall_nth_error _ _ _ _ (reaches_about server b Hb) Hp).
  - reflexivity.
  - intros open. reflexivity.
Qed.

End EventLoopProperties.
(** ** Answer clicks *)

(** A click on an answer button of the rendered question screen, on a page
    that is not loading, sends exactly one request: POST /answer with the id
    of the question on display and the backend label the button's value is
    mapped to. *)
Theorem answer_click_sends_question_and_label (server : Server)
    (history : list Event) (st : State) (screen : Screen)
    (b : GameScreen.Button) (value : string) :
  render st = Some screen ->
  In (GameButton b) (controls screen) ->
  GameScreen.onClick b = GameScreen.onAnswer value ->
  isLoading st = false ->
  exists q label,
    pendingQuestion st = Some q
    /\ Js.lookup value mapping = Some label
    /\ In label backendLabels
    /\ issued history (run history st (click server st (GameButton b)))
       = [post "/answer"
            (Some (Js.JObject [("questionId", Js.JNumber (id q));
                               ("answer", Js.JString label)]))].
Proof.
  intros Hrender Hin Hclick Hl.
  destruct st as [gs cs gc sa il]; cbn in Hl; subst il.
  unfold render in Hrender; cbn in Hrender.
  destruct gs.
  - injection Hrender as <-. cbn in Hin.
    destruct Hin as [H | [H | []]]; discriminate H.
  - destruct cs as [s |]; [| discriminate Hrender].
    injection Hrender as <-. destruct s as [q qi qn e tc go].
    unfold GameScreen.GameScreen, gameScreenProps in Hin; cbn in Hin.
    destruct go as [g |]; cbn in Hin.
    + destruct Hin as [H | [H | [H | []]]];
        injection H as <-; discriminate Hclick.
    + destruct q as [[qid qtext] |]; cbn in Hin; [| now elim Hin].
      destruct (String.eqb qtext "") eqn:Htext; cbn in Hin; [now elim Hin |].
      rewrite Htext in Hin. cbn in Hin.
      exists {| id := qid; text := qtext |}.
      destruct Hin as [H | [H | [H | [H | [H | [H | []]]]]]];
        injection H as <-; cbn in Hclick; try discriminate Hclick;
        injection Hclick as <-;
        eexists; (split; [reflexivity |]); (split; [reflexivity |]);
        (split; [cbn; tauto |]);
        unfold click; cbn [GameScreen.disabled GameScreen.onClick callback];
        rewrite handleAnswer_requests; reflexivity.
  - destruct gc; [| discriminate Hrender].
    injection Hrender as <-. cbn in Hin.
    destruct Hin as [H | [H | []]]; discriminate H.
Qed.

Lemma answer_click_sends_question_and_label_witness :
  exists q label,
    pendingQuestion (Scenario.page_with Scenario.asking) = Some q
    /\ Js.lookup "maybe" mapping = Some label
    /\ In label backendLabels
    /\ issued []
         (run [] (Scenario.page_with Scenario.asking)
            (click Scenario.healthy (Scenario.page_with Scenario.asking)
               (GameButton {| GameScreen.label := "Maybe";
                              GameScreen.onClick := GameScreen.onAnswer "maybe";
                              GameScreen.disabled := false |})))
       = [post "/answer"
            (Some (Js.JObject [("questionId", Js.JNumber (id q));
                               ("answer", Js.JString label)]))].
Proof.
  refine (answer_click_sends_question_and_label Scenario.healthy []
            (Scenario.page_with Scenario.asking) _
            {| GameScreen.label := "Maybe";
               GameScreen.onClick := GameScreen.onAnswer "maybe";
               GameScreen.disabled := false |} "maybe"
            eq_refl _ eq_refl eq_refl).
  cbn. tauto.
Defined.


(** ** Edge cases of the screens *)



(** ** Failures of the API functions *)

(** When [fetch] rejects, only [startGame] rewrites the error: it throws
    "Cannot connect to backend server..." when the browser's message
    mentions "fetch" and passes the [TypeError] on otherwise; the other
    three functions always pass the [TypeError] on. *)
Theorem network_failure_is_reported (S : Type) (server : Server)
    (w : World S) (m : string) :
  (game server (requests (log w ++ [Sent startRequest])) = Rejected m ->
   fst (startGame server w)
   = Throw (if Js.includes "fetch" m
            then Error "Cannot connect to backend server. Make sure it's running on http://localhost:5000"
            else TypeError m))
  /\ (forall questionId answer,
        game server (requests (log w ++ [Sent (answerRequest questionId answer)]))
        = Rejected m ->
        fst (submitAnswer server questionId answer w) = Throw (TypeError m))
  /\ (game server (requests (log w ++ [Sent nextQuestionRequest])) = Rejected m ->
      fst (getNextQuestion server w) = Throw (TypeError m))
  /\ (forall correct,
        feedback server (requests (log w ++ [Sent (feedbackRequest correct)]))
        = Rejected m ->
        fst (submitGuessFeedback server correct w) = Throw (TypeError m)).
Proof.
  repeat split; intros; unfold_client; cbn in *;
    match goal with H : _ = Rejected _ |- _ => rewrite H end; cbn;
    try reflexivity.
  destruct (Js.includes "fetch" m); reflexivity.
Qed.

Lemma network_failure_is_reported_witness :
  fst (startGame (Walkthrough.unreachable "Failed to fetch")
         {| page := tt; log := [] |})
  = Throw (Error "Cannot connect to backend server. Make sure it's running on http://localhost:5000").
Proof.
  exact (proj1 (network_failure_is_reported unit
                  (Walkthrough.unreachable "Failed to fetch")
                  {| page := tt; log := [] |} "Failed to fetch") eq_refl).
Defined.

Lemma length_append (s1 s2 : string) :
  String.length (s1 ++ s2) = (String.length s1 + String.length s2)%nat.
Proof.
  induction s1 as [| c s1 IH]; [reflexivity |]. cbn. rewrite IH. reflexivity.
Qed.

Lemma length_substring_prefix (n : nat) (s : string) :
  (String.length (String.substring 0 n s) <= n)%nat
  /\ ((String.length s <= n)%nat -> String.substring 0 n s = s).
Proof.
  revert s. induction n as [| n IH]; intros s.
  - destruct s; cbn; split; try lia; try reflexivity.
  - destruct s as [| c s]; cbn; [split; [lia | reflexivity] |].
    destruct (IH s) as [Hlen Hsame]. split; [lia |].
    intros H. rewrite Hsame by lia. reflexivity.
Qed.

(** An ok response whose body is not JSON makes [parseJsonResponse] throw an
    [Error] whose message starts with "Invalid JSON response: " and is at
    most 123 characters long, however long the body; a body of at most 100
    characters is quoted in full. *)
Theorem invalid_json_message_is_bounded (S T : Type) (status : Z)
    (b : Body T) (w : World S) :
  body_text b <> ""%string ->
  JSON_parse b = None ->
  exists quoted,
    fst (parseJsonResponse status b w)
    = Throw (Error ("Invalid JSON response: " ++ quoted)%string)
    /\ (String.length ("Invalid JSON response: " ++ quoted) <= 123)%nat
    /\ String.prefix quoted (body_text b) = true
    /\ ((String.length (body_text b) <= 100)%nat -> quoted = body_text b).
Proof.
  intros Htext Hparse. exists (String.substring 0 100 (body_text b)).
  unfold parseJsonResponse. apply String.eqb_neq in Htext.
  rewrite Htext, Hparse.
  destruct (length_substring_prefix 100 (body_text b)) as [Hlen Hsame].
  repeat split.
  - rewrite length_append. cbn [String.length]. lia.
  - apply String.prefix_correct.
    clear. generalize 100%nat. induction (body_text b) as [| c s IH];
      intros [| n]; cbn; try reflexivity.
    rewrite IH. reflexivity.
  - exact Hsame.
Qed.

Lemma invalid_json_message_is_bounded_witness :
  exists quoted,
    fst (parseJsonResponse 200 {| body_text := "<html>"; JSON_parse := @None GameState |}
           {| page := tt; log := [] |})
    = Throw (Error ("Invalid JSON response: " ++ quoted)%string)
    /\ (String.length ("Invalid JSON response: " ++ quoted) <= 123)%nat
    /\ String.prefix quoted "<html>" = true
    /\ ((String.length "<html>" <= 100)%nat -> quoted = "<html>"%string).
Proof.
  apply (invalid_json_message_is_bounded unit GameState 200
           {| body_text := "<html>"; JSON_parse := None |}
           {| page := tt; log := [] |});
    [discriminate | reflexivity].
Defined.

(** ** Which answers get a backend label *)

(** [mapAnswerToBackend] returns one of the five backend labels exactly for
    the answer strings that are not property names of [Object.prototype];
    for those names it returns the inherited function or object instead. *)
Theorem mapAnswerToBackend_label_iff (answer : string) :
  (exists label,
     In label backendLabels /\ mapAnswerToBackend answer = Js.Str label)
  <-> Js.lookup answer Js.Object_prototype = None.
Proof.
  unfold mapAnswerToBackend, Js.get, mapping, Js.Object_prototype.
  cbn [Js.lookup].
  split_field answer;
    (split;
     [ first [ reflexivity
             | intros (label & _ & H); discriminate H ]
     | first [ discriminate
             | intros _; eexists; split; [| reflexivity]; cbn; tauto ] ]).
Qed.

(** ** Toasts *)

(** A click shows at most one toast, and only in a run that sent a request.
    The toast of a handler is the destructive "Error" toast with the
    message of the error its API call threw (for a rejected guess, the
    first of its two calls that throws); a handler whose calls return shows
    none. *)
Theorem click_shows_at_most_one_toast (server : Server)
    (history : list Event) (st : State) :
  shown history (run history st (handleStartGame server st))
  = match fst (startGame server (started history st)) with
    | Throw e => [errorToast e]
    | Return _ => []
    end
  /\ (forall q answer,
        pendingQuestion st = Some q ->
        isLoading st = false ->
        shown history (run history st (handleAnswer server st answer))
        = match fst (submitAnswer server (id q) answer (started history st)) with
          | Throw e => [errorToast e]
          | Return _ => []
          end)
  /\ (forall g,
        pendingGuess st = Some g ->
        isLoading st = false ->
        shown history (run history st (handleGuessFeedback server st false))
        = match submitGuessFeedback server false (started history st) with
          | (Throw e, _) => [errorToast e]
          | (Return _, w1) =>
              match fst (getNextQuestion server w1) with
              | Throw e => [errorToast e]
              | Return _ => []
              end
          end)
  /\ (forall c,
        (length (shown history (run history st (click server st c))) <= 1)%nat)
  /\ (forall c,
        issued history (run history st (click server st c)) = [] ->
        shown history (run history st (click server st c)) = []).
Proof.
  split; [| split; [| split; [| split]]].
  - unfold_client. cbn. split_reply; read_log; reflexivity.
  - intros q answer Hq Hl. unfold run, handleAnswer. rewrite Hq, Hl.
    unfold_client. cbn. split_reply; read_log; reflexivity.
  - intros g Hg Hl. unfold run, handleGuessFeedback. rewrite Hg, Hl.
    unfold_client. cbn. split_reply; read_log; reflexivity.
  - intros c.
    destruct c as [| | | characterName | b | open]; unfold click, callback;
      [| | | | destruct (GameScreen.disabled b);
               [| destruct (GameScreen.onClick b) as [| answer | correct]] |];
      unfold_client; cbn; split_reply; read_log; cbn; lia.
  - intros c.
    destruct c as [| | | characterName | b | open]; unfold click, callback;
      [| | | | destruct (GameScreen.disabled b);
               [| destruct (GameScreen.onClick b) as [| answer | correct]] |];
      unfold_client; cbn; split_reply; read_log; cbn;
      first [ reflexivity | discriminate ].
Qed.

Lemma click_shows_at_most_one_toast_witness :
  shown []
    (run [] (Scenario.page_with Scenario.asking)
       (handleAnswer (Scenario.failing "boom")
          (Scenario.page_with Scenario.asking) "yes"))
  = [errorToast (Error "boom")].
Proof.
  exact (proj1 (proj2 (click_shows_at_most_one_toast (Scenario.failing "boom")
                         [] (Scenario.page_with Scenario.asking)))
           {| id := 7; text := "Can they fly?" |} "yes" eq_refl eq_refl).
Defined.
